(** * gitown: ownership attribution and CODEOWNERS reconciliation

    A shallow embedding of [src/gitown/gitown.py] and the properties of its
    two algorithms: the ownership calculator ([get_committers_for_file]) and
    the manifest reconciler ([check_files], [update_file]).

    Conventions of the embedding:
    - Python [str] is [string]; a [dict] is an association list in insertion
      order with at most one entry per key ([dict_set] keeps the position of a
      key that is already present, as Python does);
    - Python [float] is the primitive binary64 [float]; the integers that meet
      floats in the source (the literal [0], the threshold) are embedded in it;
    - exceptions and the mutable world (file system, [lru_cache], the
      [git blame] subprocess) are threaded by the monad [M]; [.gitownrc]
      and the manifest are files of the one file system, and what
      [git blame] prints depends on it;
    - [json.loads] is a parameter of the world, from the text of
      [.gitownrc] to an alias table or a failure; [int] is embedded for
      texts in ASCII;
    - what the program prints under [verbose] is left out: it changes
      neither the manifests nor the files. *)

From Stdlib Require Import ZArith String Ascii Floats Uint63.
From stdpp Require Import base option list strings gmap.

Local Open Scope string_scope.

(** ** Python strings *)

(** [count_from sub skip s]: occurrences of [sub] in [s], scanning left to
    right, the first [skip] characters being part of the previous match. *)
Fixpoint count_from (sub : string) (skip : nat) (s : string) : nat :=
  match s with
  | EmptyString => 0
  | String _ s' =>
      match skip with
      | S k => count_from sub k s'
      | O =>
          if String.prefix sub s
          then S (count_from sub (String.length sub - 1) s')
          else count_from sub 0 s'
      end
  end.

(** [str.count(sub)]: the number of non-overlapping occurrences; the empty
    string occurs between all characters. *)
Definition str_count (s sub : string) : nat :=
  match sub with
  | EmptyString => S (String.length s)
  | _ => count_from sub 0 s
  end.

Definition newline : string := String (ascii_of_nat 10) EmptyString.

(** [str.split(sep)] for a one-character separator. *)
Fixpoint split_on (sep : ascii) (s : string) : list string :=
  match s with
  | EmptyString => [EmptyString]
  | String a s' =>
      if Ascii.eqb a sep then EmptyString :: split_on sep s'
      else match split_on sep s' with
           | [] => [String a EmptyString]
           | field :: fields => String a field :: fields
           end
  end.

Fixpoint join_with (sep : string) (fields : list string) : string :=
  match fields with
  | [] => EmptyString
  | [field] => field
  | field :: fields' => field ++ sep ++ join_with sep fields'
  end.

(** [c in s] for a character. *)
Fixpoint has_char (c : ascii) (s : string) : bool :=
  match s with
  | EmptyString => false
  | String a s' => Ascii.eqb a c || has_char c s'
  end.

(** ** The csv module, [delimiter=" "]

    The reader, on lines that hold no quote character: a line is split at
    every space, and an empty line is the empty row. *)
Definition csv_row (line : string) : list string :=
  match line with
  | EmptyString => []
  | _ => split_on " "%char line
  end.

Definition csv_reader (lines : list string) : list (list string) :=
  csv_row <$> lines.

(** The writer, with the default [QUOTE_MINIMAL] and [lineterminator="\n"]:
    a field that holds the delimiter, the quote character or a character of
    the line terminator is written between quote characters, its own quote
    characters doubled; a row that is one empty field is written as two
    quote characters. *)
Definition quotechar : ascii := ascii_of_nat 34.

Fixpoint double_quotes (s : string) : string :=
  match s with
  | EmptyString => EmptyString
  | String a s' =>
      if Ascii.eqb a quotechar then String a (String a (double_quotes s'))
      else String a (double_quotes s')
  end.

Definition needs_quotes (field : string) : bool :=
  has_char " "%char field || has_char quotechar field
  || has_char (ascii_of_nat 10) field.

Definition csv_field (field : string) : string :=
  if needs_quotes field
  then String quotechar (double_quotes field ++ String quotechar EmptyString)
  else field.

Definition csv_writerow (fields : list string) : string :=
  match fields with
  | [EmptyString] => String quotechar (String quotechar EmptyString)
  | _ => join_with " " (csv_field <$> fields)
  end.

(** ** Python numbers *)

Definition float_of_nat (n : nat) : float :=
  PrimFloat.of_uint63 (Uint63.of_Z (Z.of_nat n)).

(** An integer as a float: exact for the integers below 2^53 in absolute
    value, the values of a threshold that is a percentage. *)
Definition float_of_Z (z : Z) : float :=
  match z with
  | Z0 => PrimFloat.zero
  | Zpos _ => PrimFloat.of_uint63 (Uint63.of_Z z)
  | Zneg _ => PrimFloat.opp (PrimFloat.of_uint63 (Uint63.of_Z (Z.opp z)))
  end.

(** [a > b] on numbers. *)
Definition gt (a b : float) : bool := PrimFloat.ltb b a.

(** ** Exceptions *)

Inductive exn : Type :=
  | ZeroDivisionError
  | FileNotFoundError
  | UnexpectedExit            (* invoke.run: the subprocess failed *)
  | ValueError                (* int: the text is not an integer *)
  | JSONDecodeError           (* json.loads: the text is not JSON *)
  | Exception (message : string).

Inductive outcome (A : Type) : Type :=
  | Ok (a : A)
  | Raise (e : exn).
Arguments Ok {A} a.
Arguments Raise {A} e.

(** [a / b] on integers: true division, which raises on a zero divisor. *)
Definition truediv (a b : nat) : outcome float :=
  match b with
  | O => Raise ZeroDivisionError
  | _ => Ok (PrimFloat.div (float_of_nat a) (float_of_nat b))
  end.

(** ** Dictionaries in insertion order *)

Abbreviation dict V := (list (string * V)).

Section dict.
Context {V : Type}.

Fixpoint dict_get (d : dict V) (k : string) : option V :=
  match d with
  | [] => None
  | (k', v) :: d' => if decide (k' = k) then Some v else dict_get d' k
  end.

(** [d[k] = v]: in place when [k] is a key already, at the end otherwise. *)
Fixpoint dict_set (d : dict V) (k : string) (v : V) : dict V :=
  match d with
  | [] => [(k, v)]
  | (k', v') :: d' =>
      if decide (k' = k) then (k, v) :: d' else (k', v') :: dict_set d' k v
  end.

Definition dict_keys (d : dict V) : list string := d.*1.

(** [d1 == d2]: the same number of items, and every item of [d1] is one of
    [d2]; the order of insertion plays no part. *)
Definition dict_eqb `{EqDecision V} (d1 d2 : dict V) : bool :=
  bool_decide (length d1 = length d2)
  && forallb (λ '(k, v), bool_decide (dict_get d2 k = Some v)) d1.
End dict.

(** [set(a) & set(b)] is not empty. *)
Definition intersects (a b : list string) : bool :=
  existsb (λ x, bool_decide (x ∈ b)) a.

(** ** [sorted(items, key=...)]

    Python's sort is stable and compares keys with [<] only: each element is
    placed, from left to right, in front of the first element already placed
    whose key is greater. *)
Section sorted.
Context {A : Type} (key : A → float).

Fixpoint insort (x : A) (l : list A) : list A :=
  match l with
  | [] => [x]
  | y :: l' =>
      if PrimFloat.ltb (key x) (key y) then x :: l else y :: insort x l'
  end.

Definition sorted (l : list A) : list A :=
  fold_left (λ acc x, insort x acc) l [].
End sorted.

(** ** The world outside the program *)

Record World : Type := mkWorld {
  (** the text files of the working directory by name, as their lines;
      [.gitownrc] and the manifest are among them *)
  fs : gmap string (list string);
  (** names of the files opened for writing, oldest first *)
  fs_writes : list string;
  (** [json.loads] on the lines of a file: the alias table they spell, a
      JSON object of strings, [None] when it raises *)
  json_loads : list string → option (dict string);
  (** what [git.get_all_files()] returns in the repository *)
  tracked_files : list string;
  (** what [git blame '<file>' -e] prints for the repository when the
      working directory holds these files, [None] when the command fails *)
  git_blame : gmap string (list string) → string → option string;
  (** every [git blame] subprocess started, oldest first *)
  blame_calls : list string;
  (** the [lru_cache] of [get_blame_file_content] *)
  blame_cache : gmap string string
}.

Definition M (A : Type) : Type := World → outcome A * World.

Definition ret {A} (a : A) : M A := λ w, (Ok a, w).

Definition bind {A B} (m : M A) (k : A → M B) : M B :=
  λ w, match m w with
       | (Ok a, w') => k a w'
       | (Raise e, w') => (Raise e, w')
       end.

Definition raise {A} (e : exn) : M A := λ w, (Raise e, w).

Notation "'let*' x := m 'in' k" := (bind m (λ x, k))
  (at level 10, x name, m at level 100, k at level 200,
   format "'[v' 'let*'  x  :=  m  'in' '/' k ']'").

(** [for x in l: s = body x s] *)
Fixpoint for_each {A S} (l : list A) (body : A → S → M S) (s : S) : M S :=
  match l with
  | [] => ret s
  | x :: l' => let* s' := body x s in for_each l' body s'
  end.

Definition lift {A} (o : outcome A) : M A := λ w, (o, w).

(** [open(name)] and reading the lines. *)
Definition read_file (name : string) : M (list string) :=
  λ w, match fs w !! name with
       | Some lines => (Ok lines, w)
       | None => (Raise FileNotFoundError, w)
       end.

(** [open(name, "w")] and writing [lines]. *)
Definition write_file (name : string) (lines : list string) : M unit :=
  λ w, (Ok tt,
        mkWorld (<[name := lines]> (fs w)) (fs_writes w ++ [name]) (json_loads w)
                (tracked_files w) (git_blame w) (blame_calls w) (blame_cache w)).

(** [run(f"git blame '{filename}' -e", hide=True).stdout] *)
Definition run_git_blame (filename : string) : M string :=
  λ w, let w' := mkWorld (fs w) (fs_writes w) (json_loads w) (tracked_files w)
                         (git_blame w) (blame_calls w ++ [filename])
                         (blame_cache w) in
       match git_blame w (fs w) filename with
       | Some stdout => (Ok stdout, w')
       | None => (Raise UnexpectedExit, w')
       end.

Definition cache_store (filename content : string) : M unit :=
  λ w, (Ok tt,
        mkWorld (fs w) (fs_writes w) (json_loads w) (tracked_files w)
                (git_blame w) (blame_calls w)
                (<[filename := content]> (blame_cache w))).

(** ** [class CodeOwnersUpdater] *)

Definition DEFAULT_CODEOWNERS_FILE : string := "CODEOWNERS".
Definition DEFAULT_OWNERSHIP_THRESHOLD : Z := 25.

Record CodeOwnersUpdater : Type := mkUpdater {
  files : list string;
  original_codeowner_data : dict (list string);
  updated_codeowner_data : dict (list string);
  optimized_codeowner_data : dict (list string);
  updated : bool;
  owners : dict string;
  ownership_threshold : float;
  codeowners_file : string;
  verbose : nat
}.

(** The body of the loop of [__init__]: [row[0]] raises [IndexError] on an
    empty row, which the [try] turns into [continue]. *)
Definition load_row (data : dict (list string)) (row : list string)
  : dict (list string) :=
  match row !! 0%nat with
  | None => data
  | Some first =>
      if decide (first = "#") then data else dict_set data first (drop 1 row)
  end.

Definition load_rows (rows : list (list string)) : dict (list string) :=
  fold_left load_row rows [].

(** [CodeOwnersUpdater.__init__] *)
Definition init (files : list string) (owners : dict string)
    (ownership_threshold : float) (codeowners_filename : string)
    (verbose : nat) : M CodeOwnersUpdater :=
  let* lines := read_file codeowners_filename in
  ret (mkUpdater files (load_rows (csv_reader lines)) [] [] false owners
                 ownership_threshold codeowners_filename verbose).

(** [get_blame_file_content], under [@cache]: the subprocess runs on a miss
    only, and its output is stored when it returns. *)
Definition get_blame_file_content (filename : string) : M string :=
  λ w, match blame_cache w !! filename with
       | Some content => (Ok content, w)
       | None =>
           (let* content := run_git_blame filename in
            let* _ := cache_store filename content in
            ret content) w
       end.

(** [get_committer_line_frequency_percentage], after the blame lookup. *)
Definition line_frequency_percentage (blame_file_content committer_email : string)
  : outcome float :=
  let total_lines := str_count blame_file_content newline in
  let total_lines_by_committer := str_count blame_file_content committer_email in
  let frequency_percentage := PrimFloat.zero in
  if bool_decide (total_lines ≠ 0%nat) then
    match truediv total_lines_by_committer total_lines with
    | Ok q => Ok (PrimFloat.mul q (float_of_nat 100))
    | Raise e => Raise e
    end
  else Ok frequency_percentage.

Definition get_committer_line_frequency_percentage
    (committer_email filename : string) : M float :=
  let* blame_file_content := get_blame_file_content filename in
  lift (line_frequency_percentage blame_file_content committer_email).

(** The loop of [get_committers_for_file]. *)
Definition accumulate (m : dict float) (value : string) (f : float) : dict float :=
  dict_set m value (PrimFloat.add (default PrimFloat.zero (dict_get m value)) f).

(** The list comprehension that [get_committers_for_file] returns. *)
Definition select (threshold : float) (m : dict float) : list string :=
  (filter (λ a, gt a.2 threshold = true) (sorted snd m)).*1.

Definition get_committers_for_file (self : CodeOwnersUpdater)
    (filename : string) : M (list string) :=
  let* committer_line_frequency_map :=
    for_each (owners self)
      (λ '(key, value) m,
         let* commiter_frequency :=
           get_committer_line_frequency_percentage key filename in
         ret (accumulate m value commiter_frequency))
      [] in
  ret (select (ownership_threshold self) committer_line_frequency_map).

(** The three passes of [check_files] over the manifest. *)

(** Existing entries, with the new owners of the patterns that have some. *)
Definition carry_forward (codeowners_data original updated : dict (list string))
  : dict (list string) :=
  fold_left
    (λ acc '(key, value), dict_set acc key (default value (dict_get codeowners_data key)))
    original updated.

(** New entries that share no owner with the splat set. *)
Definition insert_fresh (splat : list string)
    (codeowners_data updated : dict (list string)) : dict (list string) :=
  fold_left
    (λ acc '(key, value), if negb (intersects value splat) then dict_set acc key value else acc)
    codeowners_data updated.

(** The entries kept in the optimized manifest. *)
Definition optimize (splat : list string) (updated : dict (list string))
  : dict (list string) :=
  filter (λ item, item.1 = "*" ∨ intersects item.2 splat = false) updated.

Definition header : list string :=
  [ "# Lines starting with '#' are comments.";
    "# Each line is a file pattern followed by one or more owners.";
    "# These owners will be the default owners for everything in the repo.";
    "# * <@insert_github_username>";
    "#";
    "# Order is important. The last matching pattern has the most precedence.";
    "";
    "";
    "# This file is also being managed automatically by the gitown tool." ].

Definition set_updated (self : CodeOwnersUpdater) (b : bool) : CodeOwnersUpdater :=
  mkUpdater (files self) (original_codeowner_data self)
            (updated_codeowner_data self) (optimized_codeowner_data self) b
            (owners self) (ownership_threshold self) (codeowners_file self)
            (verbose self).

Definition set_manifests (self : CodeOwnersUpdater)
    (updated_data optimized_data : dict (list string)) : CodeOwnersUpdater :=
  mkUpdater (files self) (original_codeowner_data self) updated_data
            optimized_data (updated self) (owners self)
            (ownership_threshold self) (codeowners_file self) (verbose self).

Definition update_file (self : CodeOwnersUpdater)
    (updated_data : dict (list string)) : M CodeOwnersUpdater :=
  if negb (dict_eqb updated_data (original_codeowner_data self)) then
    let* _ := write_file (codeowners_file self)
                (header ++ ((λ '(key, value), csv_writerow (key :: value)) <$> updated_data)) in
    ret (set_updated self true)
  else ret self.

(** The first loop of [check_files]: the owners of each file, for the files
    that have some. *)
Definition collect (self : CodeOwnersUpdater) (files : list string)
  : M (dict (list string)) :=
  for_each files
    (λ file codeowners_data,
       let* file_committers := get_committers_for_file self file in
       match file_committers with
       | [] => ret codeowners_data
       | _ => ret (dict_set codeowners_data file file_committers)
       end)
    [].

(** What [check_files] leaves in [updated_codeowner_data] and
    [optimized_codeowner_data]. *)
Definition reconcile (codeowners_data original updated : dict (list string))
  : dict (list string) * dict (list string) :=
  let updated := carry_forward codeowners_data original updated in
  let splat := default [] (dict_get updated "*") in
  let updated := insert_fresh splat codeowners_data updated in
  (updated, optimize splat updated).

Definition check_files (self : CodeOwnersUpdater) (files : list string)
  : M CodeOwnersUpdater :=
  let* codeowners_data := collect self files in
  let '(updated_data, optimized_data) :=
    reconcile codeowners_data (original_codeowner_data self)
              (updated_codeowner_data self) in
  let self := set_manifests self updated_data optimized_data in
  update_file self (optimized_codeowner_data self).

(** [CodeOwnersUpdater.main]: the status and the object as the call leaves it. *)
Definition CodeOwnersUpdater_main (self : CodeOwnersUpdater)
  : M (Z * CodeOwnersUpdater) :=
  let* self := check_files self (files self) in
  ret (if updated self then 1%Z else 0%Z, self).

(** ** The command line *)

Record Args : Type := mkArgs {
  filenames : list string;
  arg_ownership_threshold : option string;
  arg_codeowners_filename : option string;
  arg_verbose : nat;
  arg_debug : bool
}.

(** [git.get_all_files()], for a run inside a git repository: the files
    that git tracks. *)
Definition get_all_files : M (list string) := λ w, (Ok (tracked_files w), w).

(** [pathlib.Path(".gitownrc").read_text("utf-8")] and [json.loads]: only
    the missing file is caught, and raised again as an [Exception]. *)
Definition read_gitownrc : M (dict string) :=
  λ w, match fs w !! ".gitownrc" with
       | Some lines =>
           match json_loads w lines with
           | Some owners => (Ok owners, w)
           | None => (Raise JSONDecodeError, w)
           end
       | None =>
           (Raise (Exception
              "A .gitownrc file is required. Please see the github repo for details"), w)
       end.

(** ** [int(text)], for a text in ASCII

    A decimal literal is blanks, a sign, digits with single underscores
    between them, blanks; it has at most [int_max_str_digits] digits, the
    default of [sys.set_int_max_str_digits]. Any other text in ASCII raises
    [ValueError]. (Outside ASCII, [int] also reads the decimal digits and
    the blanks of Unicode: [is_ascii] marks the texts of the embedding.) *)
Definition int_max_str_digits : nat := 4300.

Definition is_ascii (text : string) : bool :=
  forallb (λ a, (nat_of_ascii a <? 128)%nat) (list_ascii_of_string text).

Definition is_blank (a : ascii) : bool :=
  let n := nat_of_ascii a in
  (9 <=? n)%nat && (n <=? 13)%nat || (n =? 32)%nat.

Definition digit_of (a : ascii) : option Z :=
  let n := nat_of_ascii a in
  if (48 <=? n)%nat && (n <=? 57)%nat then Some (Z.of_nat (n - 48)) else None.

Fixpoint lstrip (l : list ascii) : list ascii :=
  match l with
  | a :: l' => if is_blank a then lstrip l' else l
  | [] => []
  end.

(** The digits after the sign; [after_digit] tells whether the character
    before was a digit. *)
Fixpoint int_digits (acc : Z) (after_digit : bool) (l : list ascii) : option Z :=
  match l with
  | [] => if after_digit then Some acc else None
  | a :: l' =>
      match digit_of a with
      | Some d => int_digits (10 * acc + d) true l'
      | None =>
          if Ascii.eqb a "_"%char && after_digit then int_digits acc false l'
          else None
      end
  end.

Definition int_of_text (text : string) : outcome Z :=
  let l := rev (lstrip (rev (lstrip (list_ascii_of_string text)))) in
  let parsed :=
    match l with
    | a :: l' =>
        if Ascii.eqb a "-"%char then Z.opp <$> int_digits 0 false l'
        else if Ascii.eqb a "+"%char then int_digits 0 false l'
        else int_digits 0 false l
    | [] => None
    end in
  match parsed with
  | Some z =>
      if (length (filter (λ a, is_Some (digit_of a)) l) <=? int_max_str_digits)%nat
      then Ok z else Raise ValueError
  | None => Raise ValueError
  end.

(** [int(args.ownership_threshold or DEFAULT_OWNERSHIP_THRESHOLD)] *)
Definition threshold_of (args : Args) : outcome Z :=
  match arg_ownership_threshold args with
  | Some (String a text) => int_of_text (String a text)
  | _ => Ok DEFAULT_OWNERSHIP_THRESHOLD
  end.

(** [x or default] on an optional string *)
Definition or_default (x : option string) (d : string) : string :=
  match x with
  | Some (String a s) => String a s
  | _ => d
  end.

(** The module's [main]: it returns [None]. *)
Definition main (args : Args) : M unit :=
  let files := filenames args in
  let* ownership_threshold := lift (threshold_of args) in
  let codeowners_filename := arg_codeowners_filename args in
  let verbose := arg_verbose args in
  let* files :=
    (if bool_decide (length files = 0%nat) then get_all_files else ret files) in
  let* owners := read_gitownrc in
  let* codeowners :=
    init files owners (float_of_Z ownership_threshold)
         (or_default codeowners_filename DEFAULT_CODEOWNERS_FILE) verbose in
  let* _ := CodeOwnersUpdater_main codeowners in
  if arg_debug args then raise (Exception "debug") else ret tt.

(** [sys.exit(main())]: [None] is status 0, an uncaught exception status 1. *)
Definition exit_status (args : Args) (w : World) : Z :=
  match fst (main args w) with
  | Ok tt => 0%Z
  | Raise _ => 1%Z
  end.

(** * Vocabulary of the properties *)

(** ** The rank of a floating-point number *)

Definition sf_rank (x : spec_float) : Z * Z * Z :=
  match x with
  | S754_nan | S754_zero _ => (0, 0, 0)
  | S754_infinity true => (-2, 0, 0)
  | S754_infinity false => (2, 0, 0)
  | S754_finite true m e => (-1, - e, - Z.pos m)
  | S754_finite false m e => (1, e, Z.pos m)
  end%Z.

Definition rank (x : float) : Z * Z * Z := sf_rank (Prim2SF x).

Definition rank_lt (a b : Z * Z * Z) : Prop :=
  (a.1.1 < b.1.1 ∨ a.1.1 = b.1.1 ∧ (a.1.2 < b.1.2 ∨ a.1.2 = b.1.2 ∧ a.2 < b.2))%Z.

Definition rank_eq (a b : Z * Z * Z) : Prop :=
  (a.1.1 = b.1.1 ∧ a.1.2 = b.1.2 ∧ a.2 = b.2)%Z.

(** ** Order of appearance *)

(** [a] stands at an earlier position than [b]. *)
Definition before {A} (l : list A) (a b : A) : Prop :=
  ∃ i j, (i < j)%nat ∧ l !! i = Some a ∧ l !! j = Some b.

(** ** The ownership calculator, as a function of the blame text *)

(** The guard on [total_lines] keeps the division from raising. *)
Definition percentage (blame_file_content committer_email : string) : float :=
  match line_frequency_percentage blame_file_content committer_email with
  | Ok p => p
  | Raise _ => PrimFloat.zero
  end.

(** The accumulated percentages of the canonical owners of a file whose
    blame text is [content], in the order in which the loop creates them. *)
Definition frequency_map (content : string) (owners : dict string) : dict float :=
  fold_left (λ m '(key, value), accumulate m value (percentage content key))
            owners [].

(** The accumulated percentage of one owner. *)
Definition accumulated (content : string) (owners : dict string) (owner : string)
  : float :=
  default PrimFloat.zero (dict_get (frequency_map content owners) owner).

(** The position of the first occurrence, the length when there is none. *)
Fixpoint first_index (x : string) (l : list string) : nat :=
  match l with
  | [] => 0
  | y :: l' => if decide (y = x) then 0 else S (first_index x l')
  end.

(** The result of [get_committers_for_file] for a blame text. *)
Definition committers (self : CodeOwnersUpdater) (content : string) : list string :=
  select (ownership_threshold self) (frequency_map content (owners self)).

(** ** The blame lookup *)

(** The text that a lookup of [filename] yields in world [w]. *)
Definition blame_text (w : World) (filename : string) : option string :=
  match blame_cache w !! filename with
  | Some content => Some content
  | None => git_blame w (fs w) filename
  end.

(** The world that a lookup of [filename] leaves. *)
Definition after_lookup (filename : string) (w : World) : World :=
  snd (get_blame_file_content filename w).

(** [w'] differs from [w] by blame lookups that succeeded. *)
Record lookups_only (w w' : World) : Prop := {
  lookups_fs : fs w' = fs w;
  lookups_fs_writes : fs_writes w' = fs_writes w;
  lookups_json_loads : json_loads w' = json_loads w;
  lookups_tracked_files : tracked_files w' = tracked_files w;
  lookups_git_blame : git_blame w' = git_blame w;
  lookups_blame_text : ∀ f, blame_text w' f = blame_text w f
}.

(** ** The first loop of [check_files], as a function of the blame texts *)

(** The owners computed for [file] in world [w]. *)
Definition file_committers (self : CodeOwnersUpdater) (w : World) (file : string)
  : list string :=
  committers self (default "" (blame_text w file)).

(** The new ownership: the files that have owners, with them. *)
Definition fresh_ownership (self : CodeOwnersUpdater) (w : World)
    (files : list string) : dict (list string) :=
  fold_left
    (λ codeowners_data file,
       match file_committers self w file with
       | [] => codeowners_data
       | _ => dict_set codeowners_data file (file_committers self w file)
       end)
    files [].

(** Every lookup of a file of the list succeeds. *)
Definition blame_available (w : World) (files : list string) : Prop :=
  ∀ file, file ∈ files → is_Some (blame_text w file).

(** No entry but the wildcard's shares an owner with the wildcard entry. *)
Definition no_redundant_entry (manifest : dict (list string)) : Prop :=
  ∀ key value, (key, value) ∈ manifest →
    key = "*" ∨ intersects value (default [] (dict_get manifest "*")) = false.

(** The lines that [update_file] writes. *)
Definition rendered (updated_data : dict (list string)) : list string :=
  (header ++ ((λ '(key, value), csv_writerow (key :: value)) <$> updated_data))%list.

(** Two dictionaries with the same keys and the same value at each key. *)
Definition same_items {V} (d1 d2 : dict V) : Prop :=
  ∀ k, dict_get d1 k = dict_get d2 k.

(** ** The discipline of the blame cache *)

(** No file was the subject of two subprocesses, and the output of every
    subprocess is in the cache. *)
Definition memoized (w : World) : Prop :=
  NoDup (blame_calls w) ∧ ∀ f, f ∈ blame_calls w → is_Some (blame_cache w !! f).

(** [m] keeps the cache in this state; when it raises, still no file was the
    subject of two subprocesses. *)
Definition keeps_memoized {A} (m : M A) : Prop :=
  ∀ w, memoized w →
    match m w with
    | (Ok _, w') => memoized w'
    | (Raise _, w') => NoDup (blame_calls w')
    end.

(** ** Sample inputs *)

Definition sample_owners : dict string :=
  [ ("ann@example.com", "@ann"); ("bob@example.com", "@bob");
    ("robert@example.com", "@bob"); ("cat@example.com", "@cat") ].

(** Four lines: two by ann, one by bob, one by cat. *)
Definition sample_blame : string :=
  "1a2b3c4d (<ann@example.com> 2024-01-05 1) import os" ++ newline ++
  "5e6f7a8b (<bob@example.com> 2024-02-11 2) import sys" ++ newline ++
  "1a2b3c4d (<ann@example.com> 2024-01-05 3) " ++ newline ++
  "9c0d1e2f (<cat@example.com> 2024-03-02 4) print(os.name)" ++ newline.

(** A repository that tracks [foo.py] and the empty [empty.py]. *)
Definition sample_git_blame (tree : gmap string (list string)) (filename : string)
  : option string :=
  if decide (filename = "foo.py") then Some sample_blame
  else if decide (filename = "empty.py") then Some ""
  else None.

(** The lines of a [.gitownrc] that spells [sample_owners], and a decoder
    that knows them. *)
Definition quoted (s : string) : string :=
  String quotechar (s ++ String quotechar EmptyString).

Definition sample_gitownrc : list string :=
  [ "{";
    quoted "ann@example.com" ++ ": " ++ quoted "@ann" ++ ",";
    quoted "bob@example.com" ++ ": " ++ quoted "@bob" ++ ",";
    quoted "robert@example.com" ++ ": " ++ quoted "@bob" ++ ",";
    quoted "cat@example.com" ++ ": " ++ quoted "@cat";
    "}" ].

Definition sample_json_loads (lines : list string) : option (dict string) :=
  if decide (lines = sample_gitownrc) then Some sample_owners else None.

Definition sample_manifest : dict (list string) :=
  [ ("*", ["@root"]); ("foo.py", ["@root"]); ("empty.py", ["@cat"]) ].

Definition sample_world : World :=
  mkWorld {[ "CODEOWNERS" := ["* @root"; "foo.py @root"; "empty.py @cat"];
             ".gitownrc" := sample_gitownrc ]}
          [] sample_json_loads ["foo.py"; "empty.py"] sample_git_blame [] ∅.

Definition sample_updater (threshold : Z) : CodeOwnersUpdater :=
  mkUpdater ["foo.py"; "empty.py"] sample_manifest [] [] false sample_owners
            (float_of_Z threshold) "CODEOWNERS" 0.

(** A manifest whose entry for [foo.py] repeats the wildcard's owner, in a
    repository where ann wrote half of [foo.py]. *)
Definition redundant_manifest : dict (list string) :=
  [ ("*", ["@ann"]); ("foo.py", ["@ann"]) ].

Definition redundant_world : World :=
  mkWorld {[ "CODEOWNERS" := ["* @ann"; "foo.py @ann"];
             ".gitownrc" := sample_gitownrc ]}
          [] sample_json_loads ["foo.py"] sample_git_blame [] ∅.

Definition redundant_updater : CodeOwnersUpdater :=
  mkUpdater ["foo.py"] redundant_manifest [] [] false sample_owners
            (float_of_Z 25) "CODEOWNERS" 0.

Definition sample_args : Args := mkArgs ["foo.py"] None None 0 false.

(** The command line [gitown --ownership_threshold 30 foo.py]. *)
Definition threshold_args : Args := mkArgs ["foo.py"] (Some "30") None 0 false.

(** ** Further vocabulary *)

(** The percentages of the identities of [owner], added up in the order of
    the alias table, from 0. *)
Definition alias_total (content : string) (owners : dict string) (owner : string)
  : float :=
  fold_left
    (λ acc '(key, value),
       if decide (value = owner) then PrimFloat.add acc (percentage content key)
       else acc)
    owners PrimFloat.zero.

(** The splat set of a reconciliation: the owners of the wildcard entry
    after the first pass. *)
Definition splat_of (codeowners_data original : dict (list string)) : list string :=
  match dict_get original "*" with
  | Some owners => default owners (dict_get codeowners_data "*")
  | None => []
  end.

(** A field that the csv module writes and reads as it is: no delimiter,
    quote or line break in it. *)
Definition plain_field (field : string) : Prop :=
  has_char " "%char field = false
  ∧ has_char (ascii_of_nat 34) field = false
  ∧ has_char (ascii_of_nat 10) field = false
  ∧ has_char (ascii_of_nat 13) field = false.

(** A manifest that is written and read back field by field: one entry
    for a pattern, plain fields, and a pattern that is neither empty nor the
    comment mark. *)
Definition plain_manifest (manifest : dict (list string)) : Prop :=
  NoDup (dict_keys manifest)
  ∧ ∀ key value, (key, value) ∈ manifest →
      key ≠ "" ∧ key ≠ "#" ∧ Forall plain_field (key :: value).

Definition with_filenames (args : Args) (filenames : list string) : Args :=
  mkArgs filenames (arg_ownership_threshold args) (arg_codeowners_filename args)
         (arg_verbose args) (arg_debug args).

Definition with_debug (args : Args) (debug : bool) : Args :=
  mkArgs (filenames args) (arg_ownership_threshold args)
         (arg_codeowners_filename args) (arg_verbose args) debug.

(** The name of the manifest file of a run. *)
Definition manifest_name (args : Args) : string :=
  or_default (arg_codeowners_filename args) DEFAULT_CODEOWNERS_FILE.



(** A working tree that holds at most a [.gitownrc], in a repository that
    tracks nothing. *)
Definition bare_world (rc : option (list string)) : World :=
  mkWorld (from_option (λ lines, {[ ".gitownrc" := lines ]}) ∅ rc) []
          sample_json_loads [] (λ _ _, None) [] ∅.

(** An updater with an empty alias table. *)
Definition no_alias_updater : CodeOwnersUpdater :=
  mkUpdater ["foo.py"] sample_manifest [] [] false [] (float_of_Z 25)
            "CODEOWNERS" 0.

Definition sample_fresh : dict (list string) :=
  [ ("foo.py", ["@ann"]); ("bar.py", ["@bob"; "@root"]); ("baz.py", ["@cat"]) ].

(** A manifest whose rows are lines of the file: no field holds a line
    break. *)
Definition no_line_break (field : string) : Prop :=
  has_char (ascii_of_nat 10) field = false
  ∧ has_char (ascii_of_nat 13) field = false.

Definition single_lines (manifest : dict (list string)) : Prop :=
  ∀ key value, (key, value) ∈ manifest → Forall no_line_break (key :: value).


(** The command line [gitown --ownership_threshold 12.5 foo.py]. *)
Definition malformed_args : Args := mkArgs ["foo.py"] (Some "12.5") None 0 false.


(** * Properties *)

(** ** Dictionaries *)

Section dict_facts.
Context {V : Type}.
Implicit Types (d : dict V) (k : string) (v : V).

Lemma dict_get_set_eq d k v : dict_get (dict_set d k v) k = Some v.
Proof.
  induction d as [|[k' v'] d IH]; simpl.
  - by rewrite decide_True.
  - destruct (decide (k' = k)) as [->|Hne]; simpl.
    + by rewrite decide_True.
    + by rewrite decide_False.
Qed.

Lemma dict_get_set_ne d k k' v :
  k ≠ k' → dict_get (dict_set d k v) k' = dict_get d k'.
Proof.
  intros Hne. induction d as [|[k0 v0] d IH]; simpl.
  - by rewrite decide_False.
  - destruct (decide (k0 = k)) as [->|Hne0]; simpl.
    + by rewrite !decide_False.
    + by rewrite IH.
Qed.

Lemma dict_get_None d k : dict_get d k = None ↔ k ∉ dict_keys d.
Proof.
  unfold dict_keys. induction d as [|[k' v'] d IH]; simpl.
  - split; [intros _; apply not_elem_of_nil | done].
  - rewrite not_elem_of_cons. destruct (decide (k' = k)) as [->|Hne].
    + split; [done | intros [? _]; done].
    + rewrite IH. split; [intros ?; by split | by intros [_ ?]].
Qed.

Lemma dict_get_is_Some d k : is_Some (dict_get d k) ↔ k ∈ dict_keys d.
Proof.
  rewrite <- not_eq_None_Some, dict_get_None.
  destruct (decide (k ∈ dict_keys d)); naive_solver.
Qed.

Lemma dict_get_elem_of d k v : dict_get d k = Some v → (k, v) ∈ d.
Proof.
  induction d as [|[k' v'] d IH]; simpl; [done|].
  destruct (decide (k' = k)) as [->|Hne].
  - intros [= ->]. apply list_elem_of_here.
  - intros H. apply list_elem_of_further, IH, H.
Qed.

Lemma elem_of_dict_get d k v :
  NoDup (dict_keys d) → (k, v) ∈ d → dict_get d k = Some v.
Proof.
  unfold dict_keys. induction d as [|[k' v'] d IH]; simpl.
  - intros _ H. by apply elem_of_nil in H.
  - intros [Hk Hd]%NoDup_cons [[= -> ->]|Hin]%elem_of_cons.
    + by rewrite decide_True.
    + rewrite decide_False; [by apply IH|].
      intros ->. apply Hk. apply list_elem_of_fmap. by exists (k, v).
Qed.

Lemma dict_keys_cons d k v : dict_keys ((k, v) :: d) = k :: dict_keys d.
Proof. reflexivity. Qed.

Lemma dict_keys_set d k v :
  dict_keys (dict_set d k v)
  = if decide (k ∈ dict_keys d) then dict_keys d else (dict_keys d ++ [k])%list.
Proof.
  induction d as [|[k' v'] d IH].
  - destruct (decide (k ∈ dict_keys [])) as [H|_]; [|done].
    by apply elem_of_nil in H.
  - cbn [dict_set]. rewrite dict_keys_cons.
    destruct (decide (k ∈ k' :: dict_keys d)) as [Hin|Hnin];
      destruct (decide (k' = k)) as [->|Hne]; rewrite dict_keys_cons.
    + done.
    + apply elem_of_cons in Hin as [?|Hin]; [congruence|].
      rewrite IH. by rewrite decide_True.
    + exfalso. apply Hnin, list_elem_of_here.
    + apply not_elem_of_cons in Hnin as [_ Hnin].
      rewrite IH. by rewrite decide_False.
Qed.

Lemma dict_set_NoDup d k v : NoDup (dict_keys d) → NoDup (dict_keys (dict_set d k v)).
Proof.
  intros Hd. rewrite dict_keys_set. case_decide; [done|].
  apply NoDup_app. split_and!; [done | | apply NoDup_singleton].
  intros x Hx ->%list_elem_of_singleton. done.
Qed.

Lemma elem_of_dict_keys_set d k k' v :
  k' ∈ dict_keys (dict_set d k v) ↔ k' = k ∨ k' ∈ dict_keys d.
Proof.
  rewrite dict_keys_set. case_decide.
  - split; [by right | by intros [->|?]].
  - rewrite elem_of_app, list_elem_of_singleton. tauto.
Qed.

(** Setting a key to the value it has changes nothing. *)
Lemma dict_set_id d k v : dict_get d k = Some v → dict_set d k v = d.
Proof.
  induction d as [|[k' v'] d IH]; simpl; [done|].
  destruct (decide (k' = k)) as [->|Hne].
  - by intros [= ->].
  - intros H. by rewrite IH.
Qed.

(** Copying the items of a dictionary into an empty one gives it back. *)
Lemma dict_set_snoc d k v : k ∉ dict_keys d → dict_set d k v = (d ++ [(k, v)])%list.
Proof.
  unfold dict_keys. induction d as [|[k' v'] d IH]; simpl; [done|].
  rewrite not_elem_of_cons. intros [Hne Hnin].
  rewrite decide_False by done. by rewrite IH.
Qed.

Lemma dict_get_app_l d d' k :
  k ∈ dict_keys d → dict_get (d ++ d')%list k = dict_get d k.
Proof.
  unfold dict_keys. induction d as [|[k' v'] d IH]; simpl.
  - intros H. by apply elem_of_nil in H.
  - destruct (decide (k' = k)); [done|].
    intros [?|?]%elem_of_cons; [congruence | by apply IH].
Qed.

Lemma dict_get_app_r d d' k :
  k ∉ dict_keys d → dict_get (d ++ d')%list k = dict_get d' k.
Proof.
  unfold dict_keys. induction d as [|[k' v'] d IH]; simpl; [done|].
  rewrite not_elem_of_cons. intros [Hne Hnin].
  rewrite decide_False by done. by apply IH.
Qed.
End dict_facts.

(** ** The order of floating-point numbers

    A float that is not NaN has a place on a line: the numbers are ranked by
    sign, exponent and mantissa, and [<] and [==] compare the ranks. *)

Lemma is_nan_false x : PrimFloat.is_nan x = false → Prim2SF x ≠ S754_nan.
Proof.
  unfold PrimFloat.is_nan. rewrite FloatAxioms.eqb_spec. intros H Hnan.
  rewrite Hnan in H. discriminate.
Qed.

Lemma SFltb_rank x y :
  x ≠ S754_nan → y ≠ S754_nan →
  SFltb x y = true ↔ rank_lt (sf_rank x) (sf_rank y).
Proof.
  intros Hx Hy. unfold SFltb, rank_lt.
  destruct x as [[]|[]| |[] m e], y as [[]|[]| |[] m' e']; try done;
    cbn [SFcompare sf_rank fst snd];
    try (split; [intros; lia | intros; done]);
    try (split; [intros; done | intros; lia]);
    change (Pos.compare_cont Eq m m') with (Pos.compare m m');
    destruct (Z.compare_spec e e'), (Pos.compare_spec m m'); simpl;
    split; intros; try done; lia.
Qed.

Lemma SFeqb_rank x y :
  x ≠ S754_nan → y ≠ S754_nan →
  SFeqb x y = true ↔ rank_eq (sf_rank x) (sf_rank y).
Proof.
  intros Hx Hy. unfold SFeqb, rank_eq.
  destruct x as [[]|[]| |[] m e], y as [[]|[]| |[] m' e']; try done;
    cbn [SFcompare sf_rank fst snd];
    try (split; [intros; lia | intros; done]);
    try (split; [intros; done | intros; lia]);
    change (Pos.compare_cont Eq m m') with (Pos.compare m m');
    destruct (Z.compare_spec e e'), (Pos.compare_spec m m'); simpl;
    split; intros; try done; lia.
Qed.

Lemma ltb_rank x y :
  PrimFloat.is_nan x = false → PrimFloat.is_nan y = false →
  PrimFloat.ltb x y = true ↔ rank_lt (rank x) (rank y).
Proof.
  intros Hx%is_nan_false Hy%is_nan_false.
  rewrite FloatAxioms.ltb_spec. by apply SFltb_rank.
Qed.

Lemma eqb_rank x y :
  PrimFloat.is_nan x = false → PrimFloat.is_nan y = false →
  PrimFloat.eqb x y = true ↔ rank_eq (rank x) (rank y).
Proof.
  intros Hx%is_nan_false Hy%is_nan_false.
  rewrite FloatAxioms.eqb_spec. by apply SFeqb_rank.
Qed.

(** A comparison with NaN is false. *)
Lemma ltb_true_number x y :
  PrimFloat.ltb x y = true → PrimFloat.is_nan x = false ∧ PrimFloat.is_nan y = false.
Proof.
  unfold PrimFloat.is_nan. rewrite FloatAxioms.ltb_spec, !FloatAxioms.eqb_spec.
  unfold SFltb, SFeqb.
  destruct (Prim2SF x) as [[]|[]| |[] m e], (Prim2SF y) as [[]|[]| |[] m' e'];
    try done; cbn [SFcompare]; intros _;
    change (Pos.compare_cont Eq ?a ?a) with (Pos.compare a a);
    by rewrite ?Z.compare_refl, ?Pos.compare_refl.
Qed.

Lemma eqb_true_number x y :
  PrimFloat.eqb x y = true → PrimFloat.is_nan x = false ∧ PrimFloat.is_nan y = false.
Proof.
  unfold PrimFloat.is_nan. rewrite !FloatAxioms.eqb_spec. unfold SFeqb.
  destruct (Prim2SF x) as [[]|[]| |[] m e], (Prim2SF y) as [[]|[]| |[] m' e'];
    try done; cbn [SFcompare]; intros _;
    change (Pos.compare_cont Eq ?a ?a) with (Pos.compare a a);
    by rewrite ?Z.compare_refl, ?Pos.compare_refl.
Qed.

Lemma ltb_irrefl x : PrimFloat.ltb x x = false.
Proof.
  destruct (PrimFloat.ltb x x) eqn:H; [|done].
  pose proof (ltb_true_number _ _ H) as [Hx _].
  apply ltb_rank in H; [|done..]. unfold rank_lt in H. lia.
Qed.

Lemma ltb_asym x y : PrimFloat.ltb x y = true → PrimFloat.ltb y x = false.
Proof.
  intros H. destruct (PrimFloat.ltb y x) eqn:H'; [|done].
  pose proof (ltb_true_number _ _ H) as [Hx Hy].
  apply ltb_rank in H, H'; [|done..]. unfold rank_lt in *. lia.
Qed.

(** [x == y] leaves neither [x < y] nor [y < x]. *)
Lemma eqb_not_ltb x y :
  PrimFloat.eqb x y = true → PrimFloat.ltb x y = false ∧ PrimFloat.ltb y x = false.
Proof.
  intros H. pose proof (eqb_true_number _ _ H) as [Hx Hy].
  apply eqb_rank in H; [|done..]. unfold rank_eq in H.
  split.
  - destruct (PrimFloat.ltb x y) eqn:H'; [|done].
    apply ltb_rank in H'; [|done..]. unfold rank_lt in H'. lia.
  - destruct (PrimFloat.ltb y x) eqn:H'; [|done].
    apply ltb_rank in H'; [|done..]. unfold rank_lt in H'. lia.
Qed.

Lemma not_ltb_eqb x y :
  PrimFloat.is_nan x = false → PrimFloat.is_nan y = false →
  PrimFloat.ltb x y = false → PrimFloat.ltb y x = false →
  PrimFloat.eqb x y = true.
Proof.
  intros Hx Hy H1 H2. apply eqb_rank; [done..|].
  apply not_true_iff_false in H1, H2.
  rewrite ltb_rank in H1, H2 by done. unfold rank_lt, rank_eq in *. lia.
Qed.

(** If [x < z], any number [y] is above [x] or below [z]. *)
Lemma ltb_between x y z :
  PrimFloat.is_nan y = false →
  PrimFloat.ltb x z = true → PrimFloat.ltb x y = true ∨ PrimFloat.ltb y z = true.
Proof.
  intros Hy H. pose proof (ltb_true_number _ _ H) as [Hx Hz].
  rewrite !ltb_rank in * by done. unfold rank_lt in *. lia.
Qed.

(** ** Order of appearance in a list *)

Section before.
Context {A : Type}.
Implicit Types (l : list A) (a b x : A).

Lemma before_nil a b : ¬ before [] a b.
Proof. intros (i & j & _ & H & _). by rewrite lookup_nil in H. Qed.

Lemma before_cons x l a b :
  before (x :: l) a b ↔ (a = x ∧ b ∈ l) ∨ before l a b.
Proof.
  split.
  - intros (i & j & Hij & Hi & Hj). destruct j as [|j]; [lia|].
    destruct i as [|i]; simpl in *.
    + left. split; [congruence | by eapply list_elem_of_lookup_2].
    + right. exists i, j. split; [lia | done].
  - intros [[-> [j Hj]%list_elem_of_lookup]|(i & j & Hij & Hi & Hj)].
    + exists 0%nat, (S j). split; [lia | done].
    + exists (S i), (S j). split; [lia | done].
Qed.

Lemma before_app l1 l2 a b :
  before (l1 ++ l2) a b ↔ before l1 a b ∨ (a ∈ l1 ∧ b ∈ l2) ∨ before l2 a b.
Proof.
  induction l1 as [|x l1 IH]; simpl.
  - split; [by auto|]. intros [H|[[H _]|H]]; [| |done].
    + by apply before_nil in H.
    + by apply elem_of_nil in H.
  - rewrite !before_cons, IH, elem_of_app, elem_of_cons. tauto.
Qed.

Lemma before_elem_of l a b : before l a b → a ∈ l ∧ b ∈ l.
Proof.
  intros (i & j & _ & Hi & Hj). split; by eapply list_elem_of_lookup_2.
Qed.

Lemma before_sublist l1 l2 a b : sublist l1 l2 → before l1 a b → before l2 a b.
Proof.
  induction 1 as [|x l1 l2 Hsub IH|x l1 l2 Hsub IH].
  - done.
  - rewrite !before_cons. intros [[-> Hb]|H]; [left | right; auto].
    split; [done|]. by eapply elem_of_sublist.
  - rewrite before_cons. auto.
Qed.

Lemma before_snoc l x a b :
  before (l ++ [x]) a b ↔ before l a b ∨ (a ∈ l ∧ b = x).
Proof.
  rewrite before_app, list_elem_of_singleton. split.
  - intros [?|[?|H]]; [by left | by right|].
    apply before_cons in H as [[_ H]|H].
    + by apply elem_of_nil in H.
    + by apply before_nil in H.
  - intros [?|?]; [by left | by right; left].
Qed.
End before.

Lemma before_fmap {A B} (f : A → B) (l : list A) a' b' :
  before (f <$> l) a' b' → ∃ a b, a' = f a ∧ b' = f b ∧ before l a b.
Proof.
  intros (i & j & Hij & Hi & Hj).
  apply list_lookup_fmap_Some in Hi as (a & -> & Ha).
  apply list_lookup_fmap_Some in Hj as (b & -> & Hb).
  exists a, b. split_and!; [done..|]. by exists i, j.
Qed.

Lemma before_fmap_2 {A B} (f : A → B) (l : list A) a b :
  before l a b → before (f <$> l) (f a) (f b).
Proof.
  intros (i & j & Hij & Hi & Hj). exists i, j.
  split_and!; [done|..]; by apply list_lookup_fmap_Some_2.
Qed.

(** ** [sorted] is a stable sort *)

Section sorted_facts.
Context {A : Type} (key : A → float).
Implicit Types (l : list A) (a b x : A).

Lemma sorted_snoc l x : sorted key (l ++ [x]) = insort key x (sorted key l).
Proof. unfold sorted. by rewrite fold_left_app. Qed.

(** Where [insort] puts the new element. *)
Lemma insort_split x l :
  ∃ l1 l2, l = (l1 ++ l2)%list ∧ insort key x l = (l1 ++ x :: l2)%list ∧
    Forall (λ a, PrimFloat.ltb (key x) (key a) = false) l1 ∧
    match l2 with
    | [] => True
    | y :: _ => PrimFloat.ltb (key x) (key y) = true
    end.
Proof.
  induction l as [|y l (l1 & l2 & -> & Hins & Hl1 & Hl2)]; simpl.
  - by exists [], [].
  - destruct (PrimFloat.ltb (key x) (key y)) eqn:Hxy.
    + by exists [], (y :: l1 ++ l2)%list.
    + exists (y :: l1), l2. rewrite Hins. split_and!; [done..| |done].
      by constructor.
Qed.

Lemma insort_Permutation x l : insort key x l ≡ₚ x :: l.
Proof.
  destruct (insort_split x l) as (l1 & l2 & -> & -> & _).
  by rewrite Permutation_middle.
Qed.

Lemma sorted_Permutation l : sorted key l ≡ₚ l.
Proof.
  induction l as [|x l IH] using rev_ind; [done|].
  rewrite sorted_snoc, insort_Permutation, IH.
  by rewrite Permutation_cons_append.
Qed.

Lemma elem_of_sorted l a : a ∈ sorted key l ↔ a ∈ l.
Proof. by rewrite sorted_Permutation. Qed.

(** Of two elements of the result, the first has the smaller key, or a key
    that is not greater and an earlier place in the input. *)
Lemma sorted_before l a b :
  Forall (λ x, PrimFloat.is_nan (key x) = false) l →
  before (sorted key l) a b →
  PrimFloat.ltb (key a) (key b) = true
  ∨ PrimFloat.ltb (key b) (key a) = false ∧ before l a b.
Proof.
  revert a b. induction l as [|x l IH'] using rev_ind; intros a b Hnum.
  { intros H. by apply before_nil in H. }
  apply Forall_app in Hnum as [Hnum Hx].
  assert (IH : ∀ a b, before (sorted key l) a b →
            PrimFloat.ltb (key a) (key b) = true
            ∨ PrimFloat.ltb (key b) (key a) = false ∧ before l a b)
    by (intros; by apply IH').
  clear IH'. rewrite sorted_snoc.
  destruct (insort_split x (sorted key l)) as (l1 & l2 & Hl & -> & Hl1 & Hl2).
  assert (Hmem : ∀ c, c ∈ (l1 ++ l2)%list → c ∈ l ∧ PrimFloat.is_nan (key c) = false).
  { intros c Hc. rewrite <- Hl, elem_of_sorted in Hc. split; [done|].
    by eapply (proj1 (Forall_forall _ _) Hnum). }
  assert (Hold : ∀ a b, before (l1 ++ l2) a b →
            PrimFloat.ltb (key a) (key b) = true
            ∨ PrimFloat.ltb (key b) (key a) = false ∧ before (l ++ [x]) a b).
  { intros a' b' H. rewrite <- Hl in H. destruct (IH _ _ H) as [?|[? ?]]; [by left|].
    right. split; [done|]. apply before_snoc. by left. }
  (* every element placed after [x] has a greater key *)
  assert (Hafter : ∀ c, c ∈ l2 → PrimFloat.ltb (key x) (key c) = true).
  { destruct l2 as [|y l2]; [intros c Hc; by apply elem_of_nil in Hc|].
    intros c [->|Hc]%elem_of_cons; [done|].
    assert (Hyc : before (l1 ++ y :: l2) y c).
    { apply before_app. right; right. apply before_cons. by left. }
    destruct (Hmem c) as [_ Hnc].
    { rewrite elem_of_app, elem_of_cons. auto. }
    destruct (ltb_between _ (key c) _ Hnc Hl2) as [?|Hcy]; [done|].
    destruct (Hold _ _ Hyc) as [Hlt|[Hge _]].
    - apply ltb_asym in Hlt. congruence.
    - congruence. }
  rewrite before_app, before_cons.
  intros [H|[[Ha Hb]|[[-> Hb]|H]]].
  - apply Hold, before_app. by left.
  - apply elem_of_cons in Hb as [->|Hb].
    + destruct (PrimFloat.ltb (key a) (key x)) eqn:Hax; [by left|].
      right. split.
      * by eapply (proj1 (Forall_forall _ _) Hl1).
      * apply before_snoc. right. split; [|done].
        apply Hmem, elem_of_app. by left.
    + apply Hold, before_app. right; by left.
  - left. by apply Hafter.
  - apply Hold, before_app. right; by right.
Qed.
End sorted_facts.

(** ** The ownership calculator *)

Lemma line_frequency_percentage_Ok content email :
  line_frequency_percentage content email = Ok (percentage content email).
Proof.
  unfold percentage, line_frequency_percentage, truediv.
  case_bool_decide as Hlines; [|done].
  by destruct (str_count content newline).
Qed.

Lemma percentage_no_lines content email :
  str_count content newline = 0%nat → percentage content email = PrimFloat.zero.
Proof.
  intros H. unfold percentage, line_frequency_percentage. rewrite H.
  by rewrite bool_decide_eq_false_2 by (by intros []).
Qed.

Lemma first_index_lt x l : x ∈ l → (first_index x l < length l)%nat.
Proof.
  induction l as [|y l IH]; simpl.
  - intros H. by apply elem_of_nil in H.
  - destruct (decide (y = x)); [lia|].
    intros [?|?]%elem_of_cons; [congruence|]. apply IH in H. lia.
Qed.

Lemma first_index_app_l x l l' :
  x ∈ l → first_index x (l ++ l') = first_index x l.
Proof.
  induction l as [|y l IH]; simpl.
  - intros H. by apply elem_of_nil in H.
  - destruct (decide (y = x)); [done|].
    intros [?|?]%elem_of_cons; [congruence|]. by rewrite IH.
Qed.

Lemma first_index_app_r x l l' :
  x ∉ l → first_index x (l ++ l') = (length l + first_index x l')%nat.
Proof.
  induction l as [|y l IH]; simpl; [done|].
  rewrite not_elem_of_cons. intros [Hne Hnin].
  rewrite decide_False by done. by rewrite IH.
Qed.

Section frequency_map_facts.
Context (content : string).
Implicit Types (owners : dict string).

Lemma frequency_map_snoc owners key value :
  frequency_map content (owners ++ [(key, value)])
  = accumulate (frequency_map content owners) value (percentage content key).
Proof. unfold frequency_map. by rewrite fold_left_app. Qed.

Lemma frequency_map_NoDup owners : NoDup (dict_keys (frequency_map content owners)).
Proof.
  induction owners as [|[key value] owners IH] using rev_ind.
  - apply NoDup_nil_2.
  - rewrite frequency_map_snoc. by apply dict_set_NoDup.
Qed.

(** The keys are the canonical names of the alias table. *)
Lemma elem_of_frequency_map_keys owners owner :
  owner ∈ dict_keys (frequency_map content owners) ↔ owner ∈ owners.*2.
Proof.
  induction owners as [|[key value] owners IH] using rev_ind.
  - done.
  - rewrite frequency_map_snoc. unfold accumulate.
    rewrite elem_of_dict_keys_set, IH, fmap_app, elem_of_app.
    simpl. rewrite list_elem_of_singleton. tauto.
Qed.

(** They stand in the order of their first occurrence in the table. *)
Lemma frequency_map_keys_order owners a b :
  before (dict_keys (frequency_map content owners)) a b →
  (first_index a owners.*2 < first_index b owners.*2)%nat.
Proof.
  revert a b. induction owners as [|[key value] owners IH] using rev_ind;
    intros a b.
  - intros H. by apply before_nil in H.
  - rewrite frequency_map_snoc. unfold accumulate.
    rewrite dict_keys_set, fmap_app. simpl.
    destruct (decide (value ∈ dict_keys (frequency_map content owners)))
      as [Hin|Hnin].
    + intros H. pose proof (before_elem_of _ _ _ H) as [Ha Hb].
      apply elem_of_frequency_map_keys in Ha, Hb.
      rewrite !first_index_app_l by done. by apply IH.
    + rewrite before_snoc. intros [H|[Ha ->]].
      * pose proof (before_elem_of _ _ _ H) as [Ha Hb].
        apply elem_of_frequency_map_keys in Ha, Hb.
        rewrite !first_index_app_l by done. by apply IH.
      * rewrite elem_of_frequency_map_keys in Ha, Hnin.
        rewrite first_index_app_l by done.
        rewrite first_index_app_r by done.
        apply first_index_lt in Ha. rewrite length_fmap in *. simpl.
        rewrite decide_True by done. lia.
Qed.

(** A file without line terminators gives every owner the percentage 0. *)
Lemma frequency_map_no_lines owners :
  str_count content newline = 0%nat →
  Forall (λ a, a.2 = PrimFloat.zero) (frequency_map content owners).
Proof.
  intros Hlines. induction owners as [|[key value] owners IH] using rev_ind.
  - constructor.
  - rewrite frequency_map_snoc, percentage_no_lines by done.
    unfold accumulate.
    assert (Hold : default PrimFloat.zero
                     (dict_get (frequency_map content owners) value)
                   = PrimFloat.zero).
    { destruct (dict_get _ value) as [p|] eqn:Hget; [|done].
      apply dict_get_elem_of in Hget.
      by apply (proj1 (Forall_forall _ _) IH) in Hget. }
    rewrite Hold. change (PrimFloat.add PrimFloat.zero PrimFloat.zero)
      with PrimFloat.zero.
    revert IH. generalize (frequency_map content owners).
    induction l as [|[k p] l IHl]; simpl; intros Hl.
    * by repeat constructor.
    * apply Forall_cons in Hl as [Hp Hl]. case_decide.
      -- by constructor.
      -- constructor; [done | by apply IHl].
Qed.
End frequency_map_facts.

(** What [select] returns: the owners above the threshold. *)
Lemma elem_of_select threshold (m : dict float) owner :
  NoDup (dict_keys m) →
  owner ∈ select threshold m
  ↔ ∃ p, dict_get m owner = Some p ∧ gt p threshold = true.
Proof.
  intros Hm. unfold select. rewrite list_elem_of_fmap. split.
  - intros ([o p] & -> & [Hp Hin%elem_of_sorted]%list_elem_of_filter).
    exists p. split; [by apply elem_of_dict_get | done].
  - intros (p & Hget%dict_get_elem_of & Hp). exists (owner, p).
    split; [done|]. apply list_elem_of_filter. split; [done|].
    by apply elem_of_sorted.
Qed.

(** ** Running the blame lookup *)

Lemma lookups_only_refl w : lookups_only w w.
Proof. by split. Qed.

Lemma lookups_only_trans w1 w2 w3 :
  lookups_only w1 w2 → lookups_only w2 w3 → lookups_only w1 w3.
Proof.
  intros [] []. split; congruence.
Qed.

Lemma get_blame_file_content_hit filename content w :
  blame_cache w !! filename = Some content →
  get_blame_file_content filename w = (Ok content, w).
Proof. intros H. unfold get_blame_file_content. by rewrite H. Qed.

Lemma get_blame_file_content_run filename content w :
  blame_text w filename = Some content →
  get_blame_file_content filename w = (Ok content, after_lookup filename w).
Proof.
  unfold after_lookup, blame_text, get_blame_file_content.
  destruct (blame_cache w !! filename) as [c|] eqn:Hc.
  - by intros [= ->].
  - intros Hgit. unfold bind, run_git_blame, cache_store, ret. by rewrite Hgit.
Qed.


Lemma after_lookup_cached filename content w :
  blame_text w filename = Some content →
  blame_cache (after_lookup filename w) !! filename = Some content.
Proof.
  unfold after_lookup, blame_text, get_blame_file_content.
  destruct (blame_cache w !! filename) as [c|] eqn:Hc.
  - by intros [= ->].
  - intros Hgit. unfold bind, run_git_blame, cache_store, ret. rewrite Hgit.
    simpl. by rewrite lookup_insert_eq.
Qed.

Lemma after_lookup_only filename content w :
  blame_text w filename = Some content →
  lookups_only w (after_lookup filename w).
Proof.
  unfold after_lookup, blame_text, get_blame_file_content.
  destruct (blame_cache w !! filename) as [c|] eqn:Hc.
  - intros _. apply lookups_only_refl.
  - intros Hgit. unfold bind, run_git_blame, cache_store, ret. rewrite Hgit.
    split; try done. intros f. unfold blame_text. simpl.
    destruct (decide (filename = f)) as [<-|Hne].
    + by rewrite lookup_insert_eq, Hc.
    + by rewrite lookup_insert_ne.
  Qed.

Lemma get_committer_line_frequency_percentage_run email filename content w :
  blame_text w filename = Some content →
  get_committer_line_frequency_percentage email filename w
  = (Ok (percentage content email), after_lookup filename w).
Proof.
  intros H. unfold get_committer_line_frequency_percentage, bind, lift.
  by rewrite (get_blame_file_content_run _ _ _ H), line_frequency_percentage_Ok.
Qed.

Lemma accumulate_loop_run filename content (owners : dict string) m w :
  blame_text w filename = Some content →
  for_each owners
    (λ '(key, value) m,
       let* commiter_frequency :=
         get_committer_line_frequency_percentage key filename in
       ret (accumulate m value commiter_frequency))
    m w
  = (Ok (fold_left (λ m '(key, value), accumulate m value (percentage content key))
                   owners m),
     match owners with [] => w | _ => after_lookup filename w end).
Proof.
  revert m w. induction owners as [|[key value] owners IH]; intros m w Hw.
  - done.
  - cbn [for_each fold_left]. unfold bind at 1. unfold bind at 1.
    rewrite (get_committer_line_frequency_percentage_run _ _ _ _ Hw).
    unfold ret at 1.
    pose proof (after_lookup_cached _ _ _ Hw) as Hhit.
    rewrite IH by (unfold blame_text; by rewrite Hhit).
    destruct owners; [done|].
    unfold after_lookup at 1.
    by rewrite (get_blame_file_content_hit _ _ _ Hhit).
Qed.

Lemma get_committers_for_file_run self filename content w :
  blame_text w filename = Some content →
  get_committers_for_file self filename w
  = (Ok (committers self content),
     match owners self with [] => w | _ => after_lookup filename w end).
Proof.
  intros Hw. unfold get_committers_for_file, bind.
  by rewrite (accumulate_loop_run _ _ _ _ _ Hw).
Qed.

(** Without aliases there is nothing to look up. *)
Lemma get_committers_for_file_no_owners self filename w :
  owners self = [] → get_committers_for_file self filename w = (Ok [], w).
Proof. intros H. unfold get_committers_for_file. by rewrite H. Qed.

Lemma accumulated_elem_of content (owners : dict string) owner p :
  (owner, p) ∈ frequency_map content owners →
  accumulated content owners owner = p.
Proof.
  intros H. unfold accumulated.
  by rewrite (elem_of_dict_get _ _ _ (frequency_map_NoDup content owners) H).
Qed.

Lemma accumulated_get content (owners : dict string) owner :
  owner ∈ owners.*2 →
  dict_get (frequency_map content owners) owner
  = Some (accumulated content owners owner).
Proof.
  intros H%(elem_of_frequency_map_keys content)%dict_get_is_Some.
  destruct H as [p Hp]. unfold accumulated. by rewrite Hp.
Qed.

Lemma elem_of_committers self content owner :
  owner ∈ committers self content
  ↔ owner ∈ (owners self).*2
    ∧ gt (accumulated content (owners self) owner) (ownership_threshold self) = true.
Proof.
  unfold committers.
  rewrite elem_of_select by apply frequency_map_NoDup. split.
  - intros (p & Hget & Hp).
    assert (Hin : owner ∈ (owners self).*2).
    { apply (elem_of_frequency_map_keys content), dict_get_is_Some. by exists p. }
    split; [done|]. rewrite accumulated_get in Hget by done. congruence.
  - intros [Hin Hp]. eexists. split; [by apply accumulated_get | done].
Qed.

(** ** The claims on the ownership calculator *)

(** C2. The threshold is an exclusive bound. For every alias table, file and
    threshold, [get_committers_for_file] returns exactly the canonical owners
    whose accumulated percentage is greater than the threshold: an owner whose
    accumulated percentage equals the threshold is left out, an owner whose
    accumulated percentage exceeds it is returned. *)
Theorem threshold_is_exclusive self filename w content :
  blame_text w filename = Some content →
  ∃ result w',
    get_committers_for_file self filename w = (Ok result, w') ∧
    ∀ owner,
      let p := accumulated content (owners self) owner in
      (owner ∈ result
       ↔ owner ∈ (owners self).*2 ∧ gt p (ownership_threshold self) = true)
      ∧ (PrimFloat.eqb p (ownership_threshold self) = true → owner ∉ result).
Proof.
  intros Hw. eexists _, _.
  split; [by apply get_committers_for_file_run|].
  intros owner p. split; [apply elem_of_committers|].
  intros Heq [_ Hgt]%elem_of_committers. unfold gt in Hgt.
  apply eqb_not_ltb in Heq as [_ Heq]. fold p in Hgt. congruence.
Qed.

(** With no line terminator in the blame text, every owner of the alias
    table has accumulated 0. *)
Lemma accumulated_no_lines content (owners : dict string) owner :
  str_count content newline = 0%nat →
  owner ∈ owners.*2 →
  accumulated content owners owner = PrimFloat.zero.
Proof.
  intros Hlines Hin.
  pose proof (accumulated_get content _ _ Hin) as Hget%dict_get_elem_of.
  by apply (proj1 (Forall_forall _ _)
              (frequency_map_no_lines content owners Hlines)) in Hget.
Qed.

(** C3, as the code has it. For a file whose blame text holds no line
    terminator, the frequency of every identity is 0 and no division by zero
    is raised, and [get_committers_for_file] returns a list of owners: the
    empty list when the threshold is not negative, whatever the alias table,
    and every canonical owner of the alias table when the threshold is
    negative. *)
Theorem no_lines_no_owners self filename w content :
  blame_text w filename = Some content →
  str_count content newline = 0%nat →
  (∀ email, line_frequency_percentage content email = Ok PrimFloat.zero)
  ∧ ∃ result w',
      get_committers_for_file self filename w = (Ok result, w')
      ∧ (gt PrimFloat.zero (ownership_threshold self) = false → result = [])
      ∧ (gt PrimFloat.zero (ownership_threshold self) = true →
         ∀ owner, owner ∈ result ↔ owner ∈ (owners self).*2).
Proof.
  intros Hw Hlines. split.
  - intros email.
    by rewrite line_frequency_percentage_Ok, percentage_no_lines.
  - eexists _, _. split; [by apply get_committers_for_file_run|]. split.
    + intros Hthreshold.
      destruct (committers self content) as [|owner l] eqn:Hres; [done|].
      assert (Hin : owner ∈ committers self content).
      { rewrite Hres. apply list_elem_of_here. }
      apply elem_of_committers in Hin as [Hin Hgt].
      rewrite accumulated_no_lines in Hgt by done. congruence.
    + intros Hthreshold owner. rewrite elem_of_committers. split.
      * by intros [Hin _].
      * intros Hin. split; [done|]. by rewrite accumulated_no_lines.
Qed.

(** C6. The owners come out in ascending order of accumulated percentage,
    and owners whose accumulated percentages are equal come out in the order
    in which their canonical names first occur in the alias table. (The
    accumulated percentages are numbers: none is NaN.) *)
Theorem committers_ascending_stable self filename w content :
  blame_text w filename = Some content →
  Forall (λ a, PrimFloat.is_nan a.2 = false)
         (frequency_map content (owners self)) →
  ∃ result w',
    get_committers_for_file self filename w = (Ok result, w') ∧
    ∀ i j a b,
      (i < j)%nat → result !! i = Some a → result !! j = Some b →
      let pa := accumulated content (owners self) a in
      let pb := accumulated content (owners self) b in
      PrimFloat.ltb pb pa = false
      ∧ (PrimFloat.eqb pa pb = true →
         (first_index a (owners self).*2 < first_index b (owners self).*2)%nat).
Proof.
  intros Hw Hnum. eexists _, _.
  split; [by apply get_committers_for_file_run|].
  intros i j a b Hij Hi Hj pa pb.
  assert (Hbefore : before (committers self content) a b) by by exists i, j.
  unfold committers, select in Hbefore.
  apply before_fmap in Hbefore as ([a' qa] & [b' qb] & -> & -> & Hbefore).
  eapply before_sublist in Hbefore; [|apply sublist_filter].
  pose proof (before_elem_of _ _ _ Hbefore) as [Ha Hb].
  rewrite elem_of_sorted in Ha, Hb.
  apply accumulated_elem_of in Ha, Hb. simpl in pa, pb.
  apply sorted_before in Hbefore; [|done]. simpl in Hbefore.
  fold pa in Ha. fold pb in Hb. subst qa qb.
  destruct Hbefore as [Hlt|[Hge Horder]].
  - split; [by apply ltb_asym|].
    intros [Heq _]%eqb_not_ltb. congruence.
  - split; [done|]. intros _.
    apply (frequency_map_keys_order content).
    by apply (before_fmap_2 fst) in Horder.
Qed.

(** ** The manifest reconciler *)

Section reconcile_facts.
Implicit Types (codeowners_data original updated : dict (list string)).
Implicit Types (splat : list string) (k : string).

Lemma carry_forward_cons codeowners_data original updated key value :
  carry_forward codeowners_data ((key, value) :: original) updated
  = carry_forward codeowners_data original
      (dict_set updated key (default value (dict_get codeowners_data key))).
Proof. reflexivity. Qed.

Lemma insert_fresh_cons splat codeowners_data updated key value :
  insert_fresh splat ((key, value) :: codeowners_data) updated
  = insert_fresh splat codeowners_data
      (if negb (intersects value splat) then dict_set updated key value
       else updated).
Proof. reflexivity. Qed.

Lemma carry_forward_snoc codeowners_data original updated key value :
  carry_forward codeowners_data (original ++ [(key, value)]) updated
  = dict_set (carry_forward codeowners_data original updated) key
             (default value (dict_get codeowners_data key)).
Proof. unfold carry_forward. by rewrite fold_left_app. Qed.

Lemma carry_forward_NoDup codeowners_data original updated :
  NoDup (dict_keys updated) →
  NoDup (dict_keys (carry_forward codeowners_data original updated)).
Proof.
  intros Hu. induction original as [|[key value] original IH] using rev_ind.
  - done.
  - rewrite carry_forward_snoc. by apply dict_set_NoDup.
Qed.

(** A pattern of the original manifest carries its new owners if it has
    some, its old owners otherwise. *)
Lemma carry_forward_get codeowners_data original updated k owners :
  NoDup (dict_keys original) →
  dict_get original k = Some owners →
  dict_get (carry_forward codeowners_data original updated) k
  = Some (default owners (dict_get codeowners_data k)).
Proof.
  induction original as [|[key value] original IH] using rev_ind; [done|].
  unfold dict_keys. rewrite fmap_app. simpl.
  intros (Ho & Hkey & _)%NoDup_app Hget. rewrite carry_forward_snoc.
  destruct (decide (key = k)) as [->|Hne].
  - rewrite dict_get_set_eq. rewrite dict_get_app_r in Hget.
    + simpl in Hget. rewrite decide_True in Hget by done. congruence.
    + intros Hin. apply (Hkey _ Hin), list_elem_of_here.
  - rewrite dict_get_set_ne by done. apply IH; [done|].
    destruct (decide (k ∈ dict_keys original)) as [Hin|Hnin].
    + by rewrite dict_get_app_l in Hget.
    + rewrite dict_get_app_r in Hget by done. simpl in Hget.
      by rewrite decide_False in Hget.
Qed.

Lemma carry_forward_get_other codeowners_data original updated k :
  k ∉ dict_keys original →
  dict_get (carry_forward codeowners_data original updated) k = dict_get updated k.
Proof.
  induction original as [|[key value] original IH] using rev_ind; [done|].
  unfold dict_keys. rewrite fmap_app, not_elem_of_app. simpl.
  rewrite not_elem_of_cons. intros [Hnin [Hne _]].
  rewrite carry_forward_snoc, dict_get_set_ne by done. by apply IH.
Qed.

Lemma elem_of_carry_forward_keys codeowners_data original updated k :
  k ∈ dict_keys (carry_forward codeowners_data original updated)
  ↔ k ∈ dict_keys original ∨ k ∈ dict_keys updated.
Proof.
  induction original as [|[key value] original IH] using rev_ind.
  - unfold carry_forward. simpl. split; [by right|].
    intros [H|H]; [by apply elem_of_nil in H | done].
  - rewrite carry_forward_snoc, elem_of_dict_keys_set, IH.
    unfold dict_keys. rewrite fmap_app, elem_of_app. simpl.
    rewrite list_elem_of_singleton. tauto.
Qed.

(** Without new owners, and from an empty dictionary, the first pass copies
    the original manifest. *)
Lemma carry_forward_copy original acc :
  NoDup (dict_keys acc ++ dict_keys original) →
  carry_forward [] original acc = (acc ++ original)%list.
Proof.
  revert acc. induction original as [|[key value] original IH]; intros acc.
  - intros _. unfold carry_forward. simpl. by rewrite app_nil_r.
  - rewrite dict_keys_cons. intros Hnd. rewrite carry_forward_cons. simpl.
    pose proof Hnd as (_ & Hkey & _)%NoDup_app.
    rewrite dict_set_snoc.
    + rewrite IH; [by rewrite <- app_assoc|].
      unfold dict_keys in *. rewrite fmap_app. simpl.
      by rewrite <- app_assoc.
    + intros Hin. apply (Hkey _ Hin), list_elem_of_here.
Qed.

Lemma insert_fresh_NoDup splat codeowners_data updated :
  NoDup (dict_keys updated) →
  NoDup (dict_keys (insert_fresh splat codeowners_data updated)).
Proof.
  revert updated.
  induction codeowners_data as [|[key value] codeowners_data IH];
    intros updated Hu; [done|].
  rewrite insert_fresh_cons.
  apply IH. destruct (negb _); [by apply dict_set_NoDup | done].
Qed.

(** The second pass leaves alone a key whose new owners are in place. *)
Lemma insert_fresh_get splat codeowners_data updated k :
  (∀ owners, (k, owners) ∈ codeowners_data → dict_get updated k = Some owners) →
  dict_get (insert_fresh splat codeowners_data updated) k = dict_get updated k.
Proof.
  revert updated.
  induction codeowners_data as [|[key value] codeowners_data IH];
    intros updated Hk; [done|].
  rewrite insert_fresh_cons.
  assert (Hstep : dict_get (if negb (intersects value splat)
                            then dict_set updated key value else updated) k
                  = dict_get updated k).
  { destruct (negb _); [|done].
    destruct (decide (key = k)) as [->|Hne].
    - rewrite dict_set_id; [done|]. apply Hk, list_elem_of_here.
    - by rewrite dict_get_set_ne. }
  rewrite IH; [done|].
  intros owners Hin. rewrite Hstep. by apply Hk, list_elem_of_further.
Qed.

Lemma insert_fresh_get_other splat codeowners_data updated k :
  k ∉ dict_keys codeowners_data →
  dict_get (insert_fresh splat codeowners_data updated) k = dict_get updated k.
Proof.
  intros Hnin. apply insert_fresh_get. intros owners Hin.
  exfalso. apply Hnin. apply list_elem_of_fmap. by exists (k, owners).
Qed.

Lemma optimize_sublist splat updated : sublist (optimize splat updated) updated.
Proof. apply sublist_filter. Qed.

Lemma optimize_NoDup splat updated :
  NoDup (dict_keys updated) → NoDup (dict_keys (optimize splat updated)).
Proof.
  intros H. eapply sublist_NoDup; [done|].
  apply fmap_sublist, optimize_sublist.
Qed.

Lemma optimize_get_splat splat updated :
  dict_get (optimize splat updated) "*" = dict_get updated "*".
Proof.
  unfold optimize. induction updated as [|[key value] updated IH]; [done|].
  rewrite filter_cons. destruct (decide _) as [Hkeep|Hdrop]; simpl in *;
    destruct (decide (key = "*")) as [->|Hne]; try done.
  exfalso. apply Hdrop. by left.
Qed.

Lemma optimize_idemp splat updated :
  optimize splat (optimize splat updated) = optimize splat updated.
Proof. unfold optimize. apply list_filter_filter_l. by intros. Qed.
End reconcile_facts.



(** C7. The patterns of the optimized manifest are patterns of the updated
    manifest, and the wildcard entry of the updated manifest is kept with its
    owners, whatever they are. *)
Theorem optimized_within_updated codeowners_data original updated0 :
  let '(updated, optimized) := reconcile codeowners_data original updated0 in
  dict_keys optimized ⊆ dict_keys updated
  ∧ optimized ⊆ updated
  ∧ ∀ owners, dict_get updated "*" = Some owners →
              dict_get optimized "*" = Some owners.
Proof.
  unfold reconcile. split_and!.
  - apply sublist_subseteq, fmap_sublist, optimize_sublist.
  - apply sublist_subseteq, optimize_sublist.
  - intros owners H. by rewrite optimize_get_splat.
Qed.

(** ** Equality of dictionaries *)

Lemma same_items_keys {V} (d1 d2 : dict V) k :
  same_items d1 d2 → k ∈ dict_keys d1 → k ∈ dict_keys d2.
Proof.
  intros H. rewrite <- !dict_get_is_Some. by rewrite (H k).
Qed.

Lemma dict_eqb_true {V} `{EqDecision V} (d1 d2 : dict V) :
  NoDup (dict_keys d1) → NoDup (dict_keys d2) →
  dict_eqb d1 d2 = true ↔ same_items d1 d2.
Proof.
  intros H1 H2. unfold dict_eqb.
  rewrite andb_true_iff, bool_decide_eq_true, forallb_forall. split.
  - intros [Hlen Hitems] k.
    assert (Hsub : ∀ k', k' ∈ dict_keys d1 → k' ∈ dict_keys d2).
    { intros k' [v Hv]%dict_get_is_Some. apply dict_get_is_Some. exists v.
      apply dict_get_elem_of, list_elem_of_In, Hitems in Hv.
      by apply bool_decide_eq_true in Hv. }
    destruct (dict_get d1 k) as [v|] eqn:Hget.
    + apply dict_get_elem_of, list_elem_of_In, Hitems in Hget.
      by apply bool_decide_eq_true in Hget.
    + symmetry. apply dict_get_None. intros Hin.
      apply dict_get_None in Hget. apply Hget.
      assert (Hperm : dict_keys d1 ≡ₚ dict_keys d2).
      { apply submseteq_length_Permutation.
        - by apply NoDup_submseteq.
        - unfold dict_keys. rewrite !length_fmap. lia. }
      by rewrite Hperm.
  - intros Hsame. split.
    + assert (Hperm : dict_keys d1 ≡ₚ dict_keys d2).
      { apply NoDup_Permutation; [done..|]. intros k.
        split; apply same_items_keys; [done|]. intros k'. by rewrite (Hsame k'). }
      apply Permutation_length in Hperm. unfold dict_keys in Hperm.
      by rewrite !length_fmap in Hperm.
    + intros [k v] Hin%list_elem_of_In. apply bool_decide_eq_true.
      rewrite <- (Hsame k). by apply elem_of_dict_get.
Qed.

Lemma dict_eqb_false {V} `{EqDecision V} (d1 d2 : dict V) :
  NoDup (dict_keys d1) → NoDup (dict_keys d2) →
  dict_eqb d1 d2 = false ↔ ¬ same_items d1 d2.
Proof.
  intros H1 H2. rewrite <- (dict_eqb_true d1 d2) by done.
  by destruct (dict_eqb d1 d2).
Qed.

(** ** Running [check_files] *)

Lemma update_file_run self updated_data w :
  update_file self updated_data w
  = if dict_eqb updated_data (original_codeowner_data self)
    then (Ok self, w)
    else (Ok (set_updated self true),
          mkWorld (<[codeowners_file self := rendered updated_data]> (fs w))
                  (fs_writes w ++ [codeowners_file self]) (json_loads w)
                  (tracked_files w) (git_blame w) (blame_calls w)
                  (blame_cache w)).
Proof. unfold update_file. by destruct (dict_eqb _ _). Qed.

Lemma get_committers_for_file_only self file w :
  is_Some (blame_text w file) →
  ∃ w', get_committers_for_file self file w = (Ok (file_committers self w file), w')
        ∧ lookups_only w w'.
Proof.
  intros [content Hw]. rewrite (get_committers_for_file_run _ _ _ _ Hw).
  eexists. split.
  - unfold file_committers. by rewrite Hw.
  - destruct (owners self); [apply lookups_only_refl|].
    by eapply after_lookup_only.
Qed.

Lemma file_committers_only self w w' file :
  lookups_only w w' → file_committers self w' file = file_committers self w file.
Proof. intros []. unfold file_committers. congruence. Qed.

Lemma collect_loop_run self files w0 w codeowners_data :
  blame_available w0 files → lookups_only w0 w →
  ∃ w',
    for_each files
      (λ file codeowners_data,
         let* file_committers := get_committers_for_file self file in
         match file_committers with
         | [] => ret codeowners_data
         | _ => ret (dict_set codeowners_data file file_committers)
         end)
      codeowners_data w
    = (Ok (fold_left
             (λ codeowners_data file,
                match file_committers self w0 file with
                | [] => codeowners_data
                | _ => dict_set codeowners_data file (file_committers self w0 file)
                end)
             files codeowners_data), w')
    ∧ lookups_only w0 w'.
Proof.
  revert w codeowners_data. induction files as [|file files IH];
    intros w codeowners_data Havail Hw.
  - by exists w.
  - cbn [for_each fold_left]. unfold bind at 1. unfold bind at 1.
    destruct (get_committers_for_file_only self file w) as (w1 & -> & Hw1).
    { rewrite (lookups_blame_text _ _ Hw). apply Havail, list_elem_of_here. }
    rewrite (file_committers_only _ _ _ _ Hw).
    assert (Hw01 : lookups_only w0 w1) by by eapply lookups_only_trans.
    assert (Havail' : blame_available w0 files).
    { intros f Hf. by apply Havail, list_elem_of_further. }
    destruct (file_committers self w0 file) as [|owner l] eqn:Hc; unfold ret at 1.
    + by apply IH.
    + by apply IH.
Qed.

Lemma collect_run self files w :
  blame_available w files →
  ∃ w', collect self files w = (Ok (fresh_ownership self w files), w')
        ∧ lookups_only w w'.
Proof.
  intros H. apply collect_loop_run; [done | apply lookups_only_refl].
Qed.

Lemma check_files_run self files w :
  blame_available w files →
  ∃ w',
    lookups_only w w' ∧
    check_files self files w
    = let manifests :=
        reconcile (fresh_ownership self w files)
          (original_codeowner_data self) (updated_codeowner_data self) in
      if dict_eqb (snd manifests) (original_codeowner_data self)
      then (Ok (set_manifests self (fst manifests) (snd manifests)), w')
      else (Ok (set_updated (set_manifests self (fst manifests) (snd manifests)) true),
            mkWorld (<[codeowners_file self := rendered (snd manifests)]> (fs w'))
                    (fs_writes w' ++ [codeowners_file self]) (json_loads w')
                    (tracked_files w') (git_blame w') (blame_calls w')
                    (blame_cache w')).
Proof.
  intros H. destruct (collect_run self files w H) as (w' & Hc & Hw).
  exists w'. split; [done|]. unfold check_files, bind. rewrite Hc.
  destruct (reconcile _ _ _) as [updated_data optimized_data].
  by rewrite update_file_run.
Qed.

(** The files with new ownership are the files of the list that have
    owners. *)
Lemma fresh_ownership_snoc self w files file :
  fresh_ownership self w (files ++ [file])
  = match file_committers self w file with
    | [] => fresh_ownership self w files
    | _ => dict_set (fresh_ownership self w files) file (file_committers self w file)
    end.
Proof. unfold fresh_ownership. by rewrite fold_left_app. Qed.

Lemma fresh_ownership_NoDup self w files :
  NoDup (dict_keys (fresh_ownership self w files)).
Proof.
  induction files as [|file files IH] using rev_ind; [apply NoDup_nil_2|].
  rewrite fresh_ownership_snoc.
  destruct (file_committers self w file); [done|]. by apply dict_set_NoDup.
Qed.

Lemma fresh_ownership_get self w files file owners :
  dict_get (fresh_ownership self w files) file = Some owners →
  file ∈ files ∧ owners = file_committers self w file ∧ owners ≠ [].
Proof.
  induction files as [|f files IH] using rev_ind; [done|].
  rewrite fresh_ownership_snoc, elem_of_app, list_elem_of_singleton.
  destruct (file_committers self w f) as [|owner l] eqn:Hc.
  - intros H. apply IH in H. tauto.
  - destruct (decide (f = file)) as [->|Hne].
    + rewrite dict_get_set_eq. intros [= <-].
      split_and!; [by right | by rewrite ?Hc | done].
    + rewrite dict_get_set_ne by done. intros H. apply IH in H. tauto.
Qed.

Lemma file_committers_computed self w file :
  is_Some (blame_text w file) →
  fst (get_committers_for_file self file w) = Ok (file_committers self w file).
Proof.
  intros H. by destruct (get_committers_for_file_only self file w H) as (w' & -> & _).
Qed.

Lemma check_files_updated self files w :
  blame_available w files →
  ∃ self' w',
    check_files self files w = (Ok self', w')
    ∧ updated_codeowner_data self'
      = fst (reconcile (fresh_ownership self w files)
               (original_codeowner_data self) (updated_codeowner_data self))
    ∧ optimized_codeowner_data self'
      = snd (reconcile (fresh_ownership self w files)
               (original_codeowner_data self) (updated_codeowner_data self)).
Proof.
  intros H. destruct (check_files_run self files w H) as (w' & _ & ->).
  simpl. destruct (dict_eqb _ _); by eexists _, _.
Qed.

(** ** The claims on the reconciliation of a run *)

(** C10. A file of the input whose list of qualifying owners is empty gets no
    entry in the new ownership; an entry that the original manifest has for
    it goes to the updated manifest with the owners it had. *)
Theorem no_owners_keeps_entry self files w file :
  NoDup (dict_keys (original_codeowner_data self)) →
  blame_available w files →
  file ∈ files →
  fst (get_committers_for_file self file w) = Ok [] →
  ∃ codeowners_data w1 self' w',
    collect self files w = (Ok codeowners_data, w1)
    ∧ check_files self files w = (Ok self', w')
    ∧ (file ∉ dict_keys codeowners_data)
    ∧ (∀ owners,
         dict_get (original_codeowner_data self) file = Some owners →
         dict_get (updated_codeowner_data self') file = Some owners).
Proof.
  intros Horiginal Havail Hfile Hempty.
  rewrite file_committers_computed in Hempty by by apply Havail.
  injection Hempty as Hempty.
  destruct (collect_run self files w Havail) as (w1 & Hcollect & _).
  destruct (check_files_updated self files w Havail)
    as (self' & w' & Hcheck & Hupdated & _).
  assert (Hfresh : file ∉ dict_keys (fresh_ownership self w files)).
  { intros [owners Hget]%dict_get_is_Some.
    apply fresh_ownership_get in Hget as (_ & -> & Hne). done. }
  exists (fresh_ownership self w files), w1, self', w'.
  split_and!; [done..|].
  intros owners Hget. rewrite Hupdated. unfold reconcile. simpl.
  rewrite insert_fresh_get_other by done.
  rewrite (carry_forward_get _ _ _ _ _ Horiginal Hget).
  apply dict_get_None in Hfresh. by rewrite Hfresh.
Qed.

Lemma carry_forward_same codeowners_data original updated :
  (∀ key value owners,
     (key, value) ∈ original → dict_get codeowners_data key = Some owners →
     owners = value) →
  carry_forward codeowners_data original updated = carry_forward [] original updated.
Proof.
  revert updated. induction original as [|[key value] original IH];
    intros updated Hsame; [done|].
  rewrite !carry_forward_cons. simpl.
  assert (Hvalue : default value (dict_get codeowners_data key) = value).
  { destruct (dict_get codeowners_data key) as [owners|] eqn:Hget; [|done].
    simpl. eapply Hsame; [apply list_elem_of_here | done]. }
  rewrite Hvalue. apply IH. intros k v o Hin. apply Hsame.
  by apply list_elem_of_further.
Qed.

Lemma insert_fresh_same splat codeowners_data updated :
  (∀ key owners, (key, owners) ∈ codeowners_data →
                 dict_get updated key = Some owners) →
  insert_fresh splat codeowners_data updated = updated.
Proof.
  induction codeowners_data as [|[key value] codeowners_data IH];
    intros Hsame; [done|].
  rewrite insert_fresh_cons.
  rewrite (dict_set_id updated key value) by apply Hsame, list_elem_of_here.
  destruct (negb _); apply IH; intros k o Hin;
    by apply Hsame, list_elem_of_further.
Qed.

Lemma optimize_no_redundant_entry manifest :
  no_redundant_entry manifest →
  optimize (default [] (dict_get manifest "*")) manifest = manifest.
Proof.
  intros H. unfold optimize. set (splat := default [] (dict_get manifest "*")).
  assert (Hall : Forall (λ item, item.1 = "*" ∨ intersects item.2 splat = false)
                        manifest).
  { apply Forall_forall. intros [key value] Hin. by apply H. }
  clearbody splat. clear H.
  induction Hall as [|item l Hitem Hall IH]; [done|].
  rewrite filter_cons, decide_True by done. by rewrite IH.
Qed.

(** When the new ownership agrees with the original entries, the optimized
    manifest is the original one without its redundant entries. *)
Lemma reconcile_matching (codeowners_data original : dict (list string)) :
  NoDup (dict_keys original) → NoDup (dict_keys codeowners_data) →
  (∀ key owners, dict_get codeowners_data key = Some owners →
                 dict_get original key = Some owners) →
  snd (reconcile codeowners_data original [])
  = optimize (default [] (dict_get original "*")) original.
Proof.
  intros Horiginal Hfresh Hsame. unfold reconcile. simpl.
  rewrite carry_forward_same.
  - rewrite (carry_forward_copy original []) by done. simpl.
    rewrite insert_fresh_same; [done|].
    intros key owners Hin. apply Hsame. by apply elem_of_dict_get.
  - intros key value owners Hin Hget%Hsame.
    apply (elem_of_dict_get _ _ _ Horiginal) in Hin. congruence.
Qed.

(** Step C leaves a manifest as it is only if no entry of it is
    redundant. *)
Lemma optimize_same_items manifest :
  NoDup (dict_keys manifest) →
  same_items (optimize (default [] (dict_get manifest "*")) manifest) manifest →
  no_redundant_entry manifest.
Proof.
  intros Hnd Hsame key value Hin.
  apply (elem_of_dict_get _ _ _ Hnd) in Hin. rewrite <- (Hsame key) in Hin.
  apply dict_get_elem_of in Hin. unfold optimize in Hin.
  by apply list_elem_of_filter in Hin as [Hkeep _].
Qed.

(** C8, as the code has it. The manifest file is rewritten exactly when the
    optimized manifest differs from the original one, in its keys or in the
    owners of a key; when they are equal nothing is written, the files are
    as they were and the run does not report a change; when they differ the
    file is written once, with the rows of the optimized manifest after the
    header. New ownership that agrees with the existing entries makes the
    optimized manifest the original one without the entries that share an
    owner with the wildcard entry: the manifest is equal, and not rewritten,
    exactly when the original holds no such entry, and is rewritten without
    these entries when it holds one. *)
Theorem manifest_rewritten_iff_changed self files w :
  NoDup (dict_keys (original_codeowner_data self)) →
  updated_codeowner_data self = [] →
  blame_available w files →
  ∃ codeowners_data w1 self' w',
    collect self files w = (Ok codeowners_data, w1)
    ∧ check_files self files w = (Ok self', w')
    ∧ (same_items (optimized_codeowner_data self') (original_codeowner_data self) →
       fs w' = fs w ∧ fs_writes w' = fs_writes w ∧ updated self' = updated self)
    ∧ (¬ same_items (optimized_codeowner_data self') (original_codeowner_data self) →
       (∃ lines, fs w' = <[codeowners_file self := lines]> (fs w)
                 ∧ (single_lines (optimized_codeowner_data self') →
                    lines = rendered (optimized_codeowner_data self')))
       ∧ fs_writes w' = (fs_writes w ++ [codeowners_file self])%list
       ∧ updated self' = true)
    ∧ ((∀ key owners, dict_get codeowners_data key = Some owners →
                      dict_get (original_codeowner_data self) key = Some owners) →
       optimized_codeowner_data self'
       = optimize (default [] (dict_get (original_codeowner_data self) "*"))
                  (original_codeowner_data self)
       ∧ (same_items (optimized_codeowner_data self') (original_codeowner_data self)
          ↔ no_redundant_entry (original_codeowner_data self))).
Proof.
  intros Horiginal Hempty Havail.
  destruct (collect_run self files w Havail) as (w1 & Hcollect & _).
  destruct (check_files_run self files w Havail) as (w' & Hw' & Hcheck).
  rewrite Hempty in Hcheck. cbv zeta in Hcheck.
  set (fresh := fresh_ownership self w files) in *.
  set (original := original_codeowner_data self) in *.
  set (optimized := snd (reconcile fresh original [])) in *.
  assert (Hoptimized : NoDup (dict_keys optimized)).
  { apply optimize_NoDup, insert_fresh_NoDup, carry_forward_NoDup, NoDup_nil_2. }
  assert (Hmatch :
    (∀ key owners, dict_get fresh key = Some owners →
                   dict_get original key = Some owners) →
    optimized = optimize (default [] (dict_get original "*")) original
    ∧ (same_items optimized original ↔ no_redundant_entry original)).
  { intros Hsame.
    assert (Heq : optimized = optimize (default [] (dict_get original "*")) original).
    { apply reconcile_matching; [done | apply fresh_ownership_NoDup | done]. }
    split; [done|]. rewrite Heq. split.
    - by apply optimize_same_items.
    - intros Hred. by rewrite optimize_no_redundant_entry. }
  destruct (dict_eqb optimized original) eqn:Heq.
  - apply dict_eqb_true in Heq; [|done..].
    exists fresh, w1, (set_manifests self (fst (reconcile fresh original [])) optimized), w'.
    split_and!; [done..| | |].
    + intros _. by destruct Hw'.
    + intros Hne. by destruct Hne.
    + intros Hsame. simpl. by apply Hmatch.
  - apply dict_eqb_false in Heq; [|done..].
    eexists fresh, w1, _, _. split_and!; [done..| | |].
    + intros Hsame. by destruct Heq.
    + intros _. simpl. destruct Hw' as [-> -> _ _ _ _].
      split_and!; [|done..]. by eexists.
    + intros Hsame. simpl. by apply Hmatch.
Qed.

(** ** The blame cache over a run *)

Lemma keeps_ret {A} (a : A) : keeps_memoized (ret a).
Proof. by intros w Hw. Qed.

Lemma keeps_raise {A} e : keeps_memoized (raise (A := A) e).
Proof. by intros w [Hw _]. Qed.

Lemma keeps_lift {A} (o : outcome A) : keeps_memoized (lift o).
Proof. intros w Hw. unfold lift. destruct o; [done | by destruct Hw]. Qed.

Lemma keeps_bind {A B} (m : M A) (k : A → M B) :
  keeps_memoized m → (∀ a, keeps_memoized (k a)) → keeps_memoized (bind m k).
Proof.
  intros Hm Hk w Hw. unfold bind. specialize (Hm w Hw).
  destruct (m w) as [[a|e] w']; [by apply Hk | done].
Qed.

Lemma keeps_for_each {A S} (l : list A) (body : A → S → M S) s :
  (∀ x s, keeps_memoized (body x s)) → keeps_memoized (for_each l body s).
Proof.
  intros Hbody. revert s. induction l as [|x l IH]; intros s; simpl.
  - apply keeps_ret.
  - apply keeps_bind; [apply Hbody | apply IH].
Qed.

(** An operation that leaves the cache and the subprocess log alone. *)
Lemma keeps_untouched {A} (m : M A) :
  (∀ w, blame_calls (snd (m w)) = blame_calls w
        ∧ blame_cache (snd (m w)) = blame_cache w) →
  keeps_memoized m.
Proof.
  intros Hm w [Hnd Hcached]. destruct (Hm w) as [Hcalls Hcache].
  destruct (m w) as [[a|e] w']; simpl in *.
  - split; rewrite Hcalls; [done|]. by rewrite Hcache.
  - by rewrite Hcalls.
Qed.

Lemma keeps_read_file name : keeps_memoized (read_file name).
Proof.
  apply keeps_untouched. intros w. unfold read_file. by destruct (fs w !! name).
Qed.

Lemma keeps_write_file name lines : keeps_memoized (write_file name lines).
Proof. by apply keeps_untouched. Qed.

Lemma keeps_get_all_files : keeps_memoized get_all_files.
Proof. by apply keeps_untouched. Qed.

Lemma keeps_read_gitownrc : keeps_memoized read_gitownrc.
Proof.
  apply keeps_untouched. intros w. unfold read_gitownrc.
  destruct (fs w !! ".gitownrc") as [lines|]; [|done].
  by destruct (json_loads w lines).
Qed.

(** The subprocess is started for a file that is not in the cache, hence
    was not the subject of a subprocess before. *)
Lemma keeps_get_blame_file_content filename :
  keeps_memoized (get_blame_file_content filename).
Proof.
  intros w [Hnd Hcached]. unfold get_blame_file_content.
  destruct (blame_cache w !! filename) as [content|] eqn:Hmiss; [done|].
  assert (Hnew : filename ∉ blame_calls w).
  { intros [c Hc]%Hcached. congruence. }
  assert (Hnd' : NoDup (blame_calls w ++ [filename])).
  { apply NoDup_app. split_and!; [done| |apply NoDup_singleton].
    intros f Hf ->%list_elem_of_singleton. done. }
  unfold bind, run_git_blame, cache_store, ret.
  destruct (git_blame w (fs w) filename) as [stdout|]; simpl; [|done].
  split; [done|].
  intros f [Hf| ->%list_elem_of_singleton]%elem_of_app; simpl.
  - destruct (decide (filename = f)) as [->|Hne].
    + rewrite lookup_insert_eq. by eexists.
    + rewrite lookup_insert_ne by done. by apply Hcached.
  - rewrite lookup_insert_eq. by eexists.
Qed.

Lemma keeps_get_committers_for_file self filename :
  keeps_memoized (get_committers_for_file self filename).
Proof.
  unfold get_committers_for_file.
  apply keeps_bind; [|intros; apply keeps_ret].
  apply keeps_for_each. intros [key value] m.
  apply keeps_bind; [|intros; apply keeps_ret].
  apply keeps_bind; [apply keeps_get_blame_file_content | intros; apply keeps_lift].
Qed.

Lemma keeps_update_file self updated_data :
  keeps_memoized (update_file self updated_data).
Proof.
  unfold update_file. destruct (negb _); [|apply keeps_ret].
  apply keeps_bind; [apply keeps_write_file | intros; apply keeps_ret].
Qed.

Lemma keeps_check_files self files : keeps_memoized (check_files self files).
Proof.
  unfold check_files. apply keeps_bind.
  - unfold collect. apply keeps_for_each. intros file codeowners_data.
    apply keeps_bind; [apply keeps_get_committers_for_file|].
    intros []; apply keeps_ret.
  - intros codeowners_data. destruct (reconcile _ _ _). apply keeps_update_file.
Qed.

Lemma keeps_main args : keeps_memoized (main args).
Proof.
  unfold main. apply keeps_bind; [apply keeps_lift|].
  intros ownership_threshold. apply keeps_bind.
  { case_bool_decide; [apply keeps_get_all_files | apply keeps_ret]. }
  intros files. apply keeps_bind; [apply keeps_read_gitownrc|].
  intros owners. apply keeps_bind.
  { unfold init. apply keeps_bind; [apply keeps_read_file | intros; apply keeps_ret]. }
  intros codeowners. apply keeps_bind.
  { unfold CodeOwnersUpdater_main.
    apply keeps_bind; [apply keeps_check_files | intros; apply keeps_ret]. }
  intros _. destruct (arg_debug args); [apply keeps_raise | apply keeps_ret].
Qed.

Lemma keeps_memoized_NoDup {A} (m : M A) w :
  keeps_memoized m → memoized w → NoDup (blame_calls (snd (m w))).
Proof.
  intros Hm Hw. specialize (Hm w Hw).
  destruct (m w) as [[a|e] w']; [by destruct Hm | done].
Qed.

(** C9. The blame lookup is memoized for the run: from a process start with
    no subprocess behind it, a run starts at most one [git blame] subprocess
    for each file, however many identities are checked against the file, and
    a lookup that is repeated returns the text of the first one and starts
    nothing. *)
Theorem blame_lookup_memoized args w :
  blame_calls w = [] →
  NoDup (blame_calls (snd (main args w)))
  ∧ (∀ self filename w1,
       memoized w1 →
       NoDup (blame_calls (snd (get_committers_for_file self filename w1))))
  ∧ (∀ filename w1 content w2,
       get_blame_file_content filename w1 = (Ok content, w2) →
       get_blame_file_content filename w2 = (Ok content, w2)).
Proof.
  intros Hstart. split_and!.
  - apply keeps_memoized_NoDup; [apply keeps_main|].
    split; rewrite Hstart; [apply NoDup_nil_2|].
    intros f Hf. by apply elem_of_nil in Hf.
  - intros self filename w1 Hw1.
    by apply keeps_memoized_NoDup; [apply keeps_get_committers_for_file|].
  - intros filename w1 content w2. unfold get_blame_file_content at 1.
    destruct (blame_cache w1 !! filename) as [c|] eqn:Hc.
    + intros [= <- <-]. by apply get_blame_file_content_hit.
    + unfold bind, run_git_blame, cache_store, ret.
      destruct (git_blame w1 (fs w1) filename) as [stdout|]; [|done].
      intros [= <- <-]. apply get_blame_file_content_hit. simpl.
      by rewrite lookup_insert_eq.
Qed.

(** ** Loading the manifest *)

Lemma load_rows_snoc rows row :
  load_rows (rows ++ [row]) = load_row (load_rows rows) row.
Proof. unfold load_rows. by rewrite fold_left_app. Qed.

(** A row without fields is skipped. *)
Lemma load_row_no_fields data : load_row data [] = data.
Proof. reflexivity. Qed.

(** A row whose first field is ["#"] is skipped. *)
Lemma load_row_comment data fields : load_row data ("#" :: fields) = data.
Proof. reflexivity. Qed.

(** Any other row maps its first field to the fields that follow. *)
Lemma load_row_entry data first fields :
  first ≠ "#" →
  load_row data (first :: fields) = dict_set data first fields.
Proof. intros Hne. unfold load_row. simpl. by rewrite decide_False. Qed.

Lemma load_rows_NoDup rows : NoDup (dict_keys (load_rows rows)).
Proof.
  induction rows as [|row rows IH] using rev_ind; [apply NoDup_nil_2|].
  rewrite load_rows_snoc. unfold load_row.
  destruct (row !! 0%nat) as [first|]; [|done].
  case_decide; [done | by apply dict_set_NoDup].
Qed.

(** [__init__] leaves a manifest with one entry for a pattern, and nothing
    updated. *)
Lemma init_fresh files owners threshold name verbose w self w' :
  init files owners threshold name verbose w = (Ok self, w') →
  NoDup (dict_keys (original_codeowner_data self))
  ∧ updated_codeowner_data self = [] ∧ updated self = false ∧ w' = w.
Proof.
  unfold init, bind, read_file, ret. destruct (fs w !! name); [|done].
  intros [= <- <-]. split_and!; [apply load_rows_NoDup | done..].
Qed.

(** C4, at the failing input: a line that begins with [#] with no space after
    it is read as a row whose first field is not ["#"], and is loaded as an
    entry of the manifest, though the header that the program writes into
    the file says that lines starting with [#] are comments. *)
Theorem comment_without_space_is_loaded :
  csv_row "#foo.py @ann" = ["#foo.py"; "@ann"]
  ∧ load_rows (csv_reader ["# a comment"; ""; "#foo.py @ann"; "* @root"])
    = [("#foo.py", ["@ann"]); ("*", ["@root"])].
Proof. split; reflexivity. Qed.

(** ** The exit status *)

(** [CodeOwnersUpdater.main] returns 1 when the manifest was updated. *)
Lemma CodeOwnersUpdater_main_status self w status self' w' :
  CodeOwnersUpdater_main self w = (Ok (status, self'), w') →
  status = if updated self' then 1%Z else 0%Z.
Proof.
  unfold CodeOwnersUpdater_main, bind, ret.
  destruct (check_files self (files self) w) as [[s|e] w1]; [|done].
  by intros [= <- <- _].
Qed.

(** The module's [main] drops it: a run that ends without an exception exits
    with status 0. *)
Lemma exit_status_normal args w :
  fst (main args w) = Ok tt → exit_status args w = 0%Z.
Proof. unfold exit_status. by intros ->. Qed.

(** C1, at the failing input: the run rewrites the manifest and
    [CodeOwnersUpdater.main] returns 1, and the process exits with status 0,
    the status of a run that changes nothing. *)
Theorem exit_status_ignores_change :
  ∃ self w1 self' w',
    init ["foo.py"] sample_owners (float_of_Z 25) "CODEOWNERS" 0 sample_world
    = (Ok self, w1)
    ∧ CodeOwnersUpdater_main self w1 = (Ok (1%Z, self'), w')
    ∧ fs_writes w' = ["CODEOWNERS"]
    ∧ fs_writes (snd (main sample_args sample_world)) = ["CODEOWNERS"]
    ∧ exit_status sample_args sample_world = 0%Z.
Proof.
  eexists _, _, _, _. split_and!; [reflexivity | reflexivity | ..];
    by vm_compute.
Qed.

(** ** The claims at sample inputs *)

Ltac by_compute := apply (bool_decide_unpack _); vm_compute; exact I.

Ltac sample_blame_available :=
  let file := fresh "file" in
  let Hin := fresh "Hin" in
  intros file Hin;
  repeat (apply elem_of_cons in Hin as [->|Hin]; [by eexists|]);
  by apply elem_of_nil in Hin.

(** C2 at [foo.py] with the threshold 25: bob and cat, at 25 percent each,
    are left out; ann, at 50 percent, is returned. *)
Lemma threshold_is_exclusive_witness :
  blame_text sample_world "foo.py" = Some sample_blame
  ∧ ∃ result w',
      get_committers_for_file (sample_updater 25) "foo.py" sample_world
      = (Ok result, w')
      ∧ ∀ owner,
          let p := accumulated sample_blame sample_owners owner in
          (owner ∈ result
           ↔ owner ∈ sample_owners.*2 ∧ gt p (float_of_Z 25) = true)
          ∧ (PrimFloat.eqb p (float_of_Z 25) = true → owner ∉ result).
Proof.
  split; [reflexivity|].
  apply (threshold_is_exclusive (sample_updater 25) "foo.py" sample_world
           sample_blame).
  reflexivity.
Defined.

(** C3 as the claim states it fails for a negative threshold: every owner of
    the alias table is returned for a file without lines. *)
Lemma zero_lines_negative_threshold :
  blame_text sample_world "empty.py" = Some ""
  ∧ str_count "" newline = 0%nat
  ∧ fst (get_committers_for_file (sample_updater (-1)) "empty.py" sample_world)
    = Ok ["@ann"; "@bob"; "@cat"].
Proof. split_and!; by vm_compute. Qed.

(** C3 at [empty.py] with the threshold 25. *)
Lemma no_lines_no_owners_witness :
  blame_text sample_world "empty.py" = Some ""
  ∧ str_count "" newline = 0%nat
  ∧ (∀ email, line_frequency_percentage "" email = Ok PrimFloat.zero)
  ∧ ∃ result w',
      get_committers_for_file (sample_updater 25) "empty.py" sample_world
      = (Ok result, w')
      ∧ (gt PrimFloat.zero (ownership_threshold (sample_updater 25)) = false →
         result = [])
      ∧ (gt PrimFloat.zero (ownership_threshold (sample_updater 25)) = true →
         ∀ owner, owner ∈ result ↔ owner ∈ (owners (sample_updater 25)).*2).
Proof.
  split_and!; [reflexivity..|].
  apply (no_lines_no_owners (sample_updater 25) "empty.py" sample_world "");
    reflexivity.
Defined.



(** C6 at [foo.py] with the threshold 10: bob and cat, equal at 25 percent,
    come in the order of the alias table, before ann at 50 percent. *)
Lemma committers_ascending_stable_witness :
  blame_text sample_world "foo.py" = Some sample_blame
  ∧ Forall (λ a, PrimFloat.is_nan a.2 = false)
           (frequency_map sample_blame sample_owners)
  ∧ ∃ result w',
      get_committers_for_file (sample_updater 10) "foo.py" sample_world
      = (Ok result, w')
      ∧ ∀ i j a b,
          (i < j)%nat → result !! i = Some a → result !! j = Some b →
          let pa := accumulated sample_blame sample_owners a in
          let pb := accumulated sample_blame sample_owners b in
          PrimFloat.ltb pb pa = false
          ∧ (PrimFloat.eqb pa pb = true →
             (first_index a sample_owners.*2 < first_index b sample_owners.*2)%nat).
Proof.
  assert (Hnum : Forall (λ a, PrimFloat.is_nan a.2 = false)
                        (frequency_map sample_blame sample_owners))
    by (vm_compute; repeat constructor).
  split_and!; [reflexivity | done |].
  apply (committers_ascending_stable (sample_updater 10) "foo.py" sample_world
           sample_blame); [reflexivity | done].
Defined.

(** C8 as the claim states it fails on a manifest with a redundant entry:
    the new ownership of [foo.py] is the existing entry, and the file is
    rewritten without it. *)
Lemma matching_ownership_rewrites_redundant_manifest :
  fst (init ["foo.py"] sample_owners (float_of_Z 25) "CODEOWNERS" 0 redundant_world)
  = Ok redundant_updater
  ∧ fst (collect redundant_updater ["foo.py"] redundant_world)
    = Ok [("foo.py", ["@ann"])]
  ∧ dict_get (original_codeowner_data redundant_updater) "foo.py" = Some ["@ann"]
  ∧ fs_writes (snd (check_files redundant_updater ["foo.py"] redundant_world))
    = ["CODEOWNERS"]
  ∧ fs (snd (check_files redundant_updater ["foo.py"] redundant_world)) !! "CODEOWNERS"
    = Some (rendered [("*", ["@ann"])])
  ∧ match fst (check_files redundant_updater ["foo.py"] redundant_world) with
    | Ok self' => updated self'
    | Raise _ => false
    end = true.
Proof. split_and!; by vm_compute. Qed.

(** C8 at the sample repository. *)
Lemma manifest_rewritten_iff_changed_witness :
  NoDup (dict_keys (original_codeowner_data (sample_updater 25)))
  ∧ updated_codeowner_data (sample_updater 25) = []
  ∧ blame_available sample_world ["foo.py"; "empty.py"]
  ∧ ∃ codeowners_data w1 self' w',
      collect (sample_updater 25) ["foo.py"; "empty.py"] sample_world
      = (Ok codeowners_data, w1)
      ∧ check_files (sample_updater 25) ["foo.py"; "empty.py"] sample_world
        = (Ok self', w')
      ∧ (same_items (optimized_codeowner_data self') sample_manifest →
         fs w' = fs sample_world ∧ fs_writes w' = fs_writes sample_world
         ∧ updated self' = false)
      ∧ (¬ same_items (optimized_codeowner_data self') sample_manifest →
         (∃ lines, fs w' = <["CODEOWNERS" := lines]> (fs sample_world)
                   ∧ (single_lines (optimized_codeowner_data self') →
                      lines = rendered (optimized_codeowner_data self')))
         ∧ fs_writes w' = (fs_writes sample_world ++ ["CODEOWNERS"])%list
         ∧ updated self' = true)
      ∧ ((∀ key owners, dict_get codeowners_data key = Some owners →
                        dict_get sample_manifest key = Some owners) →
         optimized_codeowner_data self'
         = optimize (default [] (dict_get sample_manifest "*")) sample_manifest
         ∧ (same_items (optimized_codeowner_data self') sample_manifest
            ↔ no_redundant_entry sample_manifest)).
Proof.
  assert (H1 : NoDup (dict_keys (original_codeowner_data (sample_updater 25))))
    by by_compute.
  assert (H2 : blame_available sample_world ["foo.py"; "empty.py"])
    by sample_blame_available.
  split_and!; [done..|].
  by apply (manifest_rewritten_iff_changed (sample_updater 25)
              ["foo.py"; "empty.py"] sample_world).
Defined.

(** C9 at the sample repository. *)
Lemma blame_lookup_memoized_witness :
  blame_calls sample_world = []
  ∧ NoDup (blame_calls (snd (main sample_args sample_world)))
  ∧ (∀ self filename w1,
       memoized w1 →
       NoDup (blame_calls (snd (get_committers_for_file self filename w1))))
  ∧ (∀ filename w1 content w2,
       get_blame_file_content filename w1 = (Ok content, w2) →
       get_blame_file_content filename w2 = (Ok content, w2)).
Proof.
  split; [reflexivity|].
  apply (blame_lookup_memoized sample_args sample_world). reflexivity.
Defined.

(** C10 at the sample repository: [empty.py] has no qualifying owner and
    keeps the entry that the manifest has for it. *)
Lemma no_owners_keeps_entry_witness :
  NoDup (dict_keys (original_codeowner_data (sample_updater 25)))
  ∧ blame_available sample_world ["foo.py"; "empty.py"]
  ∧ "empty.py" ∈ ["foo.py"; "empty.py"]
  ∧ fst (get_committers_for_file (sample_updater 25) "empty.py" sample_world)
    = Ok []
  ∧ ∃ codeowners_data w1 self' w',
      collect (sample_updater 25) ["foo.py"; "empty.py"] sample_world
      = (Ok codeowners_data, w1)
      ∧ check_files (sample_updater 25) ["foo.py"; "empty.py"] sample_world
        = (Ok self', w')
      ∧ ("empty.py" ∉ dict_keys codeowners_data)
      ∧ (∀ owners,
           dict_get sample_manifest "empty.py" = Some owners →
           dict_get (updated_codeowner_data self') "empty.py" = Some owners).
Proof.
  assert (H1 : NoDup (dict_keys (original_codeowner_data (sample_updater 25))))
    by by_compute.
  assert (H2 : blame_available sample_world ["foo.py"; "empty.py"])
    by sample_blame_available.
  assert (H3 : "empty.py" ∈ ["foo.py"; "empty.py"]) by by_compute.
  split_and!; [done | done | done | reflexivity |].
  by apply (no_owners_keeps_entry (sample_updater 25) ["foo.py"; "empty.py"]
              sample_world "empty.py").
Defined.

(** * Further properties of the code *)

(** ** The ownership calculator *)

(** X1. The percentages of the identities that map to one canonical owner
    are added up (neither averaged nor capped): the accumulated percentage
    of an owner is the sum, from 0 and in the order of the alias table, of
    the percentages of its identities. *)
Theorem accumulated_is_sum content (owners : dict string) owner :
  accumulated content owners owner = alias_total content owners owner.
Proof.
  unfold accumulated, alias_total.
  induction owners as [|[key value] owners IH] using rev_ind; [done|].
  rewrite frequency_map_snoc, fold_left_app. simpl. unfold accumulate.
  destruct (decide (value = owner)) as [->|Hne].
  - rewrite dict_get_set_eq. simpl. by rewrite IH.
  - by rewrite dict_get_set_ne.
Qed.

(** X2. An owner is returned once, however many of its identities appear in
    the file, and every owner returned is a canonical name of the alias
    table. *)
Theorem committers_distinct self filename w content :
  blame_text w filename = Some content →
  ∃ result w',
    get_committers_for_file self filename w = (Ok result, w')
    ∧ NoDup result
    ∧ result ⊆ (owners self).*2.
Proof.
  intros Hw. eexists _, _.
  split; [by apply get_committers_for_file_run|]. split.
  - unfold committers, select.
    eapply sublist_NoDup; [|apply fmap_sublist, sublist_filter].
    fold (dict_keys (sorted snd (frequency_map content (owners self)))).
    unfold dict_keys. rewrite sorted_Permutation.
    apply frequency_map_NoDup.
  - intros owner Hin. by apply elem_of_committers in Hin as [Hin _].
Qed.

(** X3. Raising the threshold adds no owner: the owners returned for a
    threshold are, in the same order, among those returned for a threshold
    that is not greater. *)
Theorem raising_threshold_drops_owners self1 self2 filename w content :
  blame_text w filename = Some content →
  owners self2 = owners self1 →
  PrimFloat.is_nan (ownership_threshold self1) = false →
  PrimFloat.ltb (ownership_threshold self2) (ownership_threshold self1) = false →
  ∃ result1 result2 w1 w2,
    get_committers_for_file self1 filename w = (Ok result1, w1)
    ∧ get_committers_for_file self2 filename w = (Ok result2, w2)
    ∧ sublist result2 result1.
Proof.
  intros Hw Howners Hnum Hle. eexists _, _, _, _.
  split; [by apply get_committers_for_file_run|].
  split; [by apply get_committers_for_file_run|].
  unfold committers, select. rewrite Howners. apply fmap_sublist.
  rewrite <- (list_filter_filter_l
                (λ a, gt a.2 (ownership_threshold self2) = true)
                (λ a, gt a.2 (ownership_threshold self1) = true)).
  - apply sublist_filter.
  - intros [o p]. unfold gt. simpl. intros Hp.
    destruct (ltb_between _ (ownership_threshold self1) _ Hnum Hp); [congruence | done].
Qed.

(** ** The manifest reconciler *)

Lemma filter_iff_elem_of {A} (P1 P2 : A → Prop)
    `{!∀ x, Decision (P1 x), !∀ x, Decision (P2 x)} (l : list A) :
  (∀ x, x ∈ l → P1 x ↔ P2 x) → filter P1 l = filter P2 l.
Proof.
  induction l as [|x l IH]; intros Hall; [done|].
  rewrite !filter_cons.
  rewrite IH by (intros y Hy; by apply Hall, list_elem_of_further).
  assert (Hx : P1 x ↔ P2 x) by apply Hall, list_elem_of_here.
  destruct (decide (P1 x)) as [H1|H1], (decide (P2 x)) as [H2|H2];
    try done; tauto.
Qed.

(** What the second pass leaves at a key. *)
Lemma insert_fresh_lookup splat (codeowners_data updated : dict (list string)) k :
  NoDup (dict_keys codeowners_data) →
  dict_get (insert_fresh splat codeowners_data updated) k
  = match dict_get codeowners_data k with
    | Some owners =>
        if intersects owners splat then dict_get updated k else Some owners
    | None => dict_get updated k
    end.
Proof.
  revert updated.
  induction codeowners_data as [|[key value] codeowners_data IH];
    intros updated Hnd; [done|].
  rewrite dict_keys_cons in Hnd. apply NoDup_cons in Hnd as [Hkey Hnd].
  rewrite insert_fresh_cons, IH by done. simpl.
  destruct (decide (key = k)) as [->|Hne].
  - apply dict_get_None in Hkey. rewrite Hkey.
    destruct (intersects value splat); simpl; [done|].
    by rewrite dict_get_set_eq.
  - destruct (dict_get codeowners_data k) as [owners|];
      destruct (intersects value splat); simpl; try done;
      by rewrite dict_get_set_ne.
Qed.

Lemma carry_forward_lookup (codeowners_data original : dict (list string)) k :
  NoDup (dict_keys original) →
  dict_get (carry_forward codeowners_data original []) k
  = match dict_get original k with
    | Some owners => Some (default owners (dict_get codeowners_data k))
    | None => None
    end.
Proof.
  intros Hnd. destruct (dict_get original k) as [owners|] eqn:Hget.
  - by apply carry_forward_get.
  - apply dict_get_None in Hget. by rewrite carry_forward_get_other.
Qed.

Lemma reconcile_splat (codeowners_data original : dict (list string)) :
  NoDup (dict_keys original) →
  default [] (dict_get (carry_forward codeowners_data original []) "*")
  = splat_of codeowners_data original.
Proof.
  intros Hnd. rewrite carry_forward_lookup by done. unfold splat_of.
  by destruct (dict_get original "*").
Qed.

(** X4. First pass, carry-forward with override: a pattern of the original
    manifest is in the updated manifest, with the new owners of the file of
    that name when there are some (the whole list is replaced), with its
    original owners otherwise. *)
Theorem original_entry_overridden (codeowners_data original : dict (list string))
    k owners :
  NoDup (dict_keys original) → NoDup (dict_keys codeowners_data) →
  dict_get original k = Some owners →
  dict_get (fst (reconcile codeowners_data original [])) k
  = Some (default owners (dict_get codeowners_data k)).
Proof.
  intros Horiginal Hfresh Hget. unfold reconcile. simpl.
  rewrite insert_fresh_lookup, (carry_forward_lookup _ _ k), Hget by done.
  destruct (dict_get codeowners_data k) as [new|]; [|done].
  by destruct (intersects new _).
Qed.

(** X5. Second pass, insertion with wildcard suppression: a file that is
    not a pattern of the original manifest enters the updated manifest with
    its new owners when none of them is in the splat set, and is left out
    when one of them is (the sets meet; the lists need not be equal). *)
Theorem new_entry_suppressed_by_splat (codeowners_data original : dict (list string))
    k owners :
  NoDup (dict_keys original) → NoDup (dict_keys codeowners_data) →
  k ∉ dict_keys original →
  dict_get codeowners_data k = Some owners →
  dict_get (fst (reconcile codeowners_data original [])) k
  = if intersects owners (splat_of codeowners_data original) then None
    else Some owners.
Proof.
  intros Horiginal Hfresh Hnew Hget. unfold reconcile. simpl.
  rewrite insert_fresh_lookup, Hget, reconcile_splat by done.
  destruct (intersects owners _); [|done].
  apply dict_get_None in Hnew. by rewrite carry_forward_lookup, Hnew.
Qed.

Lemma carry_forward_keys (codeowners_data original acc : dict (list string)) :
  NoDup (dict_keys acc ++ dict_keys original) →
  dict_keys (carry_forward codeowners_data original acc)
  = (dict_keys acc ++ dict_keys original)%list.
Proof.
  revert acc. induction original as [|[key value] original IH]; intros acc.
  - intros _. unfold carry_forward. simpl. by rewrite app_nil_r.
  - rewrite dict_keys_cons. intros Hnd. rewrite carry_forward_cons.
    pose proof Hnd as (_ & Hkey & _)%NoDup_app.
    assert (Hnew : key ∉ dict_keys acc).
    { intros Hin. apply (Hkey _ Hin), list_elem_of_here. }
    rewrite IH; rewrite dict_keys_set, decide_False by done.
    + by rewrite <- app_assoc.
    + by rewrite <- app_assoc.
Qed.

Lemma insert_fresh_keys splat (codeowners_data updated : dict (list string)) :
  NoDup (dict_keys codeowners_data) →
  dict_keys (insert_fresh splat codeowners_data updated)
  = (dict_keys updated
     ++ (filter (λ item, (item.1 ∉ dict_keys updated)
                         ∧ intersects item.2 splat = false)
                codeowners_data).*1)%list.
Proof.
  revert updated.
  induction codeowners_data as [|[key value] codeowners_data IH];
    intros updated Hnd.
  - unfold insert_fresh. simpl. by rewrite app_nil_r.
  - rewrite dict_keys_cons in Hnd. apply NoDup_cons in Hnd as [Hkey Hnd].
    rewrite insert_fresh_cons, IH, filter_cons by done. simpl.
    destruct (intersects value splat) eqn:Hsplat; simpl.
    + rewrite decide_False by (by intros [_ ?]). done.
    + rewrite dict_keys_set.
      destruct (decide (key ∈ dict_keys updated)) as [Hin|Hnin].
      * rewrite decide_False by (by intros [? _]). done.
      * rewrite decide_True by done. rewrite <- app_assoc. simpl.
        do 3 f_equal. apply filter_iff_elem_of. intros [k v] Hkv. simpl.
        rewrite elem_of_app, list_elem_of_singleton.
        assert (k ≠ key).
        { intros ->. apply Hkey, list_elem_of_fmap. by exists (key, v). }
        tauto.
Qed.

(** X6. The order of the updated manifest: the patterns of the original
    manifest, in their order, followed by the new files that are kept, in
    the order in which the run computed them. *)
Theorem updated_keys_order (codeowners_data original : dict (list string)) :
  NoDup (dict_keys original) → NoDup (dict_keys codeowners_data) →
  dict_keys (fst (reconcile codeowners_data original []))
  = (dict_keys original
     ++ (filter (λ item, (item.1 ∉ dict_keys original)
                         ∧ intersects item.2 (splat_of codeowners_data original) = false)
                codeowners_data).*1)%list.
Proof.
  intros Horiginal Hfresh. unfold reconcile. simpl.
  rewrite insert_fresh_keys, reconcile_splat by done.
  by rewrite (carry_forward_keys _ original []).
Qed.

Lemma reconcile_wildcard_kept (codeowners_data original : dict (list string)) :
  NoDup (dict_keys original) → NoDup (dict_keys codeowners_data) →
  "*" ∈ dict_keys original ∨ "*" ∉ dict_keys codeowners_data →
  default [] (dict_get (snd (reconcile codeowners_data original [])) "*")
  = splat_of codeowners_data original
  ∧ default [] (dict_get (fst (reconcile codeowners_data original [])) "*")
    = splat_of codeowners_data original.
Proof.
  intros Horiginal Hfresh Hsplat. unfold reconcile. simpl.
  rewrite optimize_get_splat, insert_fresh_lookup by done.
  rewrite <- (reconcile_splat codeowners_data original) by done.
  rewrite carry_forward_lookup by done.
  destruct Hsplat as [[old Hold]%dict_get_is_Some|Hnin%dict_get_None].
  - rewrite Hold. destruct (dict_get codeowners_data "*") as [new|]; [|done].
    by destruct (intersects new _).
  - by rewrite Hnin.
Qed.

(** X7. The optimized manifest has no redundant entry: apart from the
    wildcard entry, none of its entries has an owner that the wildcard entry
    has, when the wildcard entry was not brought in by the new ownership. *)
Theorem optimized_no_redundant_entry (codeowners_data original : dict (list string)) :
  NoDup (dict_keys original) → NoDup (dict_keys codeowners_data) →
  "*" ∈ dict_keys original ∨ "*" ∉ dict_keys codeowners_data →
  no_redundant_entry (snd (reconcile codeowners_data original [])).
Proof.
  intros Horiginal Hfresh Hsplat key value Hin.
  destruct (reconcile_wildcard_kept _ _ Horiginal Hfresh Hsplat) as [-> _].
  unfold reconcile in Hin. simpl in Hin.
  apply list_elem_of_filter in Hin as [Hkeep _]. simpl in Hkeep.
  by rewrite reconcile_splat in Hkeep.
Qed.

Lemma insert_fresh_same_disjoint splat (codeowners_data updated : dict (list string)) :
  (∀ key owners, (key, owners) ∈ codeowners_data →
                 intersects owners splat = false →
                 dict_get updated key = Some owners) →
  insert_fresh splat codeowners_data updated = updated.
Proof.
  induction codeowners_data as [|[key value] codeowners_data IH];
    intros Hsame; [done|].
  rewrite insert_fresh_cons.
  destruct (intersects value splat) eqn:Hsplat; simpl.
  - apply IH. intros k o Hin. by apply Hsame, list_elem_of_further.
  - rewrite (dict_set_id updated key value)
      by (apply Hsame; [apply list_elem_of_here | done]).
    apply IH. intros k o Hin. by apply Hsame, list_elem_of_further.
Qed.

(** X8. A second run changes nothing: reconciling the optimized manifest
    with the same new ownership gives the optimized manifest again, as the
    updated and as the optimized manifest, when the wildcard entry was not
    brought in by the new ownership. *)
Theorem reconcile_fixpoint (codeowners_data original : dict (list string)) :
  NoDup (dict_keys original) → NoDup (dict_keys codeowners_data) →
  "*" ∈ dict_keys original ∨ "*" ∉ dict_keys codeowners_data →
  let optimized := snd (reconcile codeowners_data original []) in
  reconcile codeowners_data optimized [] = (optimized, optimized).
Proof.
  intros Horiginal Hfresh Hsplat optimized.
  set (updated := fst (reconcile codeowners_data original [])).
  assert (Hupdated : NoDup (dict_keys updated)).
  { apply insert_fresh_NoDup, carry_forward_NoDup, NoDup_nil_2. }
  assert (Hoptimized : NoDup (dict_keys optimized)).
  { by apply optimize_NoDup. }
  assert (Hsub : ∀ item, item ∈ optimized → item ∈ updated).
  { intros item. apply sublist_subseteq, optimize_sublist. }
  (* a key of the new ownership that is in the updated manifest has its new owners *)
  assert (Hnew : ∀ key value owners,
             (key, value) ∈ updated → dict_get codeowners_data key = Some owners →
             owners = value).
  { intros key value owners Hin%(elem_of_dict_get _ _ _ Hupdated) Hget.
    unfold updated, reconcile in Hin. simpl in Hin.
    rewrite insert_fresh_lookup, Hget in Hin by done.
    rewrite (carry_forward_lookup _ _ key) in Hin by done. rewrite Hget in Hin.
    destruct (intersects owners _); [|congruence].
    destruct (dict_get original key); simpl in Hin; congruence. }
  pose proof (reconcile_wildcard_kept _ _ Horiginal Hfresh Hsplat) as [Hso Hsu].
  fold optimized in Hso.
  unfold reconcile at 1.
  assert (Hcarried : carry_forward codeowners_data optimized [] = optimized).
  { rewrite carry_forward_same.
    - by rewrite (carry_forward_copy optimized []).
    - intros key value owners Hin Hget. eapply Hnew; [by apply Hsub | done]. }
  rewrite Hcarried, Hso.
  assert (Hinserted :
    insert_fresh (splat_of codeowners_data original) codeowners_data optimized
    = optimized).
  { apply insert_fresh_same_disjoint. intros key owners Hin Hdisjoint.
    apply elem_of_dict_get; [done|].
    assert (Hu : (key, owners) ∈ updated).
    { apply dict_get_elem_of. unfold updated, reconcile. simpl.
      rewrite insert_fresh_lookup by done.
      rewrite (elem_of_dict_get _ _ _ Hfresh Hin).
      by rewrite reconcile_splat, Hdisjoint. }
    unfold optimized, reconcile. simpl. apply list_elem_of_filter.
    split; [|done]. right. simpl. by rewrite reconcile_splat. }
  rewrite Hinserted. f_equal.
  unfold optimized, reconcile. simpl.
  rewrite reconcile_splat by done. apply optimize_idemp.
Qed.

(** ** Loading and writing the manifest *)

(** X9. When several lines of the manifest have the same pattern, the last
    one gives its owners; the comment mark is never a pattern of the loaded
    manifest. *)
Theorem load_rows_last_wins (rows : list (list string)) :
  ("#" ∉ dict_keys (load_rows rows))
  ∧ (∀ k, k ≠ "#" →
       dict_get (load_rows rows) k
       = drop 1 <$> last (filter (λ row, row !! 0%nat = Some k) rows)).
Proof.
  induction rows as [|row rows [IHmark IHget]] using rev_ind.
  { split; [apply not_elem_of_nil | done]. }
  rewrite load_rows_snoc. unfold load_row.
  destruct (row !! 0%nat) as [first|] eqn:Hfirst.
  - destruct (decide (first = "#")) as [->|Hne].
    + split; [done|]. intros k Hk.
      rewrite filter_app, filter_cons, decide_False by congruence.
      rewrite filter_nil, app_nil_r. by apply IHget.
    + split.
      * rewrite elem_of_dict_keys_set. intros [?|?]; [congruence | done].
      * intros k Hk. rewrite filter_app, filter_cons, filter_nil.
        destruct (decide (first = k)) as [->|Hne'].
        -- rewrite dict_get_set_eq, decide_True by done.
           by rewrite last_snoc.
        -- rewrite dict_get_set_ne, decide_False by congruence.
           rewrite app_nil_r. by apply IHget.
  - split; [done|]. intros k Hk.
    rewrite filter_app, filter_cons, decide_False by congruence.
    rewrite filter_nil, app_nil_r. by apply IHget.
Qed.

Lemma split_on_plain sep field :
  has_char sep field = false → split_on sep field = [field].
Proof.
  induction field as [|a field IH]; simpl; [done|].
  intros [Ha Hfield]%orb_false_iff. by rewrite Ha, IH.
Qed.

Lemma split_on_app sep field rest :
  has_char sep field = false →
  split_on sep (field ++ String sep rest) = field :: split_on sep rest.
Proof.
  induction field as [|a field IH]; simpl.
  - intros _. by rewrite Ascii.eqb_refl.
  - intros [Ha Hfield]%orb_false_iff. by rewrite Ha, IH.
Qed.

Lemma split_on_join_with (fields : list string) :
  fields ≠ [] →
  Forall (λ field, has_char " "%char field = false) fields →
  split_on " "%char (join_with " " fields) = fields.
Proof.
  intros Hne Hplain. induction Hplain as [|field fields Hfield Hplain IH]; [done|].
  destruct fields as [|field' fields].
  - simpl. by apply split_on_plain.
  - change (join_with " " (field :: field' :: fields))
      with (field ++ String " "%char (join_with " " (field' :: fields))).
    rewrite split_on_app by done. by rewrite IH.
Qed.

(** A pattern that holds a space is written between quotes. *)
Example csv_writerow_quotes :
  csv_writerow ["my file.py"; "@ann"] = quoted "my file.py" ++ " @ann".
Proof. reflexivity. Qed.

(** A plain field is written without quotes. *)
Lemma csv_field_plain field : plain_field field → csv_field field = field.
Proof.
  intros (Hspace & Hquote & Hlf & _). unfold csv_field, needs_quotes, quotechar.
  by rewrite Hspace, Hquote, Hlf.
Qed.

Lemma csv_writerow_plain key (value : list string) :
  key ≠ "" → Forall plain_field (key :: value) →
  csv_writerow (key :: value) = join_with " " (key :: value).
Proof.
  intros Hkey Hplain.
  assert (Hfields : csv_field <$> (key :: value) = key :: value).
  { induction Hplain as [|field fields Hfield _ IH]; [done|].
    rewrite fmap_cons, IH. by rewrite csv_field_plain. }
  unfold csv_writerow. rewrite Hfields. destruct key; [done|]. by destruct value.
Qed.

(** A row of plain fields is read as it was written. *)
Lemma csv_row_writerow key (value : list string) :
  key ≠ "" → Forall plain_field (key :: value) →
  csv_row (csv_writerow (key :: value)) = key :: value.
Proof.
  intros Hkey Hplain. rewrite csv_writerow_plain by done.
  assert (Hsplit : split_on " "%char (join_with " " (key :: value)) = key :: value).
  { apply split_on_join_with; [done|].
    eapply Forall_impl; [done|]. by intros field [? _]. }
  unfold csv_row. destruct (join_with " " (key :: value)) eqn:Hline; [|done].
  destruct key; [done|]. simpl in Hline.
  by destruct value.
Qed.

Lemma load_written_rows (manifest acc : dict (list string)) :
  NoDup (dict_keys acc ++ dict_keys manifest) →
  (∀ key value, (key, value) ∈ manifest →
     key ≠ "" ∧ key ≠ "#" ∧ Forall plain_field (key :: value)) →
  fold_left load_row
    (csv_row <$> ((λ '(key, value), csv_writerow (key :: value)) <$> manifest)) acc
  = (acc ++ manifest)%list.
Proof.
  revert acc. induction manifest as [|[key value] manifest IH]; intros acc.
  - intros _ _. simpl. by rewrite app_nil_r.
  - rewrite dict_keys_cons. intros Hnd Hplain. rewrite !fmap_cons. cbn [fold_left].
    destruct (Hplain key value) as (Hkey & Hmark & Hfields);
      [apply list_elem_of_here|].
    rewrite csv_row_writerow, load_row_entry by done.
    pose proof Hnd as (_ & Hnew & _)%NoDup_app.
    rewrite dict_set_snoc
      by (intros Hin; apply (Hnew _ Hin), list_elem_of_here).
    rewrite IH.
    + by rewrite <- app_assoc.
    + unfold dict_keys in *. rewrite fmap_app. simpl. by rewrite <- app_assoc.
    + intros k v Hin. by apply Hplain, list_elem_of_further.
Qed.

(** X10. What [update_file] writes, [__init__] reads back: the lines written
    for a manifest of plain fields load as that manifest, the header being
    skipped; after a run that rewrote the file, a new updater starts from the
    manifest that was written. *)
Theorem written_manifest_read_back self updated_data w files owners threshold
    verbose :
  plain_manifest updated_data →
  load_rows (csv_reader (rendered updated_data)) = updated_data
  ∧ (dict_eqb updated_data (original_codeowner_data self) = false →
     ∃ self' w' self2,
       update_file self updated_data w = (Ok self', w')
       ∧ init files owners threshold (codeowners_file self) verbose w'
         = (Ok self2, w')
       ∧ original_codeowner_data self2 = updated_data).
Proof.
  intros [Hnd Hplain].
  assert (Hload : load_rows (csv_reader (rendered updated_data)) = updated_data).
  { unfold load_rows, rendered, csv_reader. rewrite fmap_app, fold_left_app.
    change (fold_left load_row (csv_row <$> header) []) with (@nil (string * list string)).
    by rewrite (load_written_rows updated_data []). }
  split; [done|]. intros Hdiff.
  rewrite update_file_run, Hdiff. eexists _, _, _. split; [done|].
  unfold init, bind, read_file, ret. simpl. rewrite lookup_insert_eq.
  split; [done|]. done.
Qed.

(** ** What a run reads and writes *)













(** X12. With file names on the command line and a threshold that [int]
    reads, a run in a directory without [.gitownrc] stops with an
    [Exception] that says the file is required, before it reads the
    manifest: nothing is written or looked up, and the exit status is 1. *)
Theorem missing_gitownrc_is_fatal args w threshold :
  threshold_of args = Ok threshold →
  filenames args ≠ [] →
  fs w !! ".gitownrc" = None →
  main args w
  = (Raise (Exception
       "A .gitownrc file is required. Please see the github repo for details"),
     w)
  ∧ exit_status args w = 1%Z.
Proof.
  intros Hthreshold Hfiles Hrc.
  assert (Hmain : main args w
    = (Raise (Exception
         "A .gitownrc file is required. Please see the github repo for details"),
       w)).
  { unfold main, bind, lift. rewrite Hthreshold.
    rewrite bool_decide_eq_false_2 by by destruct (filenames args).
    unfold ret, read_gitownrc. by rewrite Hrc. }
  split; [done|]. unfold exit_status. by rewrite Hmain.
Qed.

(** X13. With file names on the command line, a threshold that [int] reads
    and a [.gitownrc] that [json.loads] decodes, a run without the manifest
    file stops with [FileNotFoundError] from [__init__]: no file is created
    and no blame is looked up. *)
Theorem missing_manifest_is_fatal args w threshold rc owners :
  threshold_of args = Ok threshold →
  filenames args ≠ [] →
  fs w !! ".gitownrc" = Some rc →
  json_loads w rc = Some owners →
  fs w !! manifest_name args = None →
  main args w = (Raise FileNotFoundError, w).
Proof.
  intros Hthreshold Hfiles Hrc Hjson Hfile. unfold main, bind, lift.
  rewrite Hthreshold.
  rewrite bool_decide_eq_false_2 by by destruct (filenames args).
  unfold ret at 1. unfold read_gitownrc. rewrite Hrc, Hjson.
  unfold init, bind, read_file.
  fold (manifest_name args). by rewrite Hfile.
Qed.

(** X18. The threshold is read first: when [int] refuses the text of the
    option, a text in ASCII, the run stops with its exception before
    anything is read, written or looked up, also when [.gitownrc] is
    missing. *)
Theorem malformed_threshold_is_fatal args w e :
  is_ascii (default "" (arg_ownership_threshold args)) = true →
  threshold_of args = Raise e →
  main args w = (Raise e, w) ∧ exit_status args w = 1%Z.
Proof.
  intros _ Hthreshold.
  assert (Hmain : main args w = (Raise e, w)).
  { unfold main, bind, lift. by rewrite Hthreshold. }
  split; [done|]. unfold exit_status. by rewrite Hmain.
Qed.

(** X19. A [.gitownrc] that [json.loads] refuses is not caught: with file
    names on the command line and a threshold that [int] reads, the run
    stops with [JSONDecodeError], not with the message that the file is
    required, before it reads the manifest. *)
Theorem unparsable_gitownrc_is_fatal args w threshold rc :
  threshold_of args = Ok threshold →
  filenames args ≠ [] →
  fs w !! ".gitownrc" = Some rc →
  json_loads w rc = None →
  main args w = (Raise JSONDecodeError, w).
Proof.
  intros Hthreshold Hfiles Hrc Hjson. unfold main, bind, lift.
  rewrite Hthreshold.
  rewrite bool_decide_eq_false_2 by by destruct (filenames args).
  unfold ret at 1. unfold read_gitownrc. by rewrite Hrc, Hjson.
Qed.

(** X14. The debug flag changes nothing of what the run does: the world is
    left as without the flag, and a run that would end normally ends with
    the exception ["debug"] instead, hence with exit status 1. *)
Theorem debug_raises_after_the_run args w :
  main (with_debug args true) w
  = (match fst (main (with_debug args false) w) with
     | Ok _ => Raise (Exception "debug")
     | Raise e => Raise e
     end,
     snd (main (with_debug args false) w))
  ∧ exit_status (with_debug args true) w = 1%Z.
Proof.
  assert (Hmain : main (with_debug args true) w
    = (match fst (main (with_debug args false) w) with
       | Ok _ => Raise (Exception "debug")
       | Raise e => Raise e
       end,
       snd (main (with_debug args false) w))).
  { unfold main, with_debug, bind. simpl.
    change (threshold_of (mkArgs _ _ _ _ true)) with (threshold_of args).
    change (threshold_of (mkArgs _ _ _ _ false)) with (threshold_of args).
    destruct (threshold_of args) as [threshold|e]; [|done].
    destruct ((if bool_decide (length (filenames args) = 0%nat)
               then get_all_files else ret (filenames args)) w)
      as [[files|e] w1]; [|done].
    destruct (read_gitownrc w1) as [[owners|e] w2]; [|done].
    destruct (init _ _ _ _ _ w2) as [[codeowners|e] w3]; [|done].
    by destruct (CodeOwnersUpdater_main codeowners w3) as [[r|e] w4]. }
  split; [done|]. unfold exit_status. rewrite Hmain. simpl.
  by destruct (fst (main (with_debug args false) w)).
Qed.

(** X15. A run without file names is the run on all the files that git
    tracks. *)
Theorem no_filenames_means_all_files args w :
  main (with_filenames args []) w
  = main (with_filenames args (tracked_files w)) w.
Proof.
  unfold main, with_filenames, bind. simpl.
  change (threshold_of (mkArgs [] _ _ _ _)) with (threshold_of args).
  change (threshold_of (mkArgs (tracked_files w) _ _ _ _)) with (threshold_of args).
  destruct (threshold_of args) as [threshold|e]; [|done].
  assert (Hfiles :
    (if bool_decide (length (tracked_files w) = 0%nat)
     then get_all_files else ret (tracked_files w)) w
    = (Ok (tracked_files w), w)) by by case_bool_decide.
  by rewrite Hfiles.
Qed.

(** ** Edge cases of the first loop *)

Lemma collect_loop_no_owners self files codeowners_data w :
  owners self = [] →
  for_each files
    (λ file codeowners_data,
       let* file_committers := get_committers_for_file self file in
       match file_committers with
       | [] => ret codeowners_data
       | _ => ret (dict_set codeowners_data file file_committers)
       end)
    codeowners_data w
  = (Ok codeowners_data, w).
Proof.
  intros Howners. induction files as [|file files IH]; [done|].
  cbn [for_each]. unfold bind at 1. unfold bind at 1.
  by rewrite get_committers_for_file_no_owners.
Qed.

(** X16. With an empty alias table no file gets new owners and no
    [git blame] subprocess is started, whatever the files are: the run only
    optimizes the manifest it loaded. *)
Theorem empty_alias_table_looks_nothing_up self files w :
  owners self = [] →
  collect self files w = (Ok [], w)
  ∧ blame_calls (snd (check_files self files w)) = blame_calls w
  ∧ ∃ self' w',
      check_files self files w = (Ok self', w')
      ∧ updated_codeowner_data self'
        = carry_forward [] (original_codeowner_data self)
            (updated_codeowner_data self).
Proof.
  intros Howners.
  assert (Hcollect : collect self files w = (Ok [], w))
    by by apply collect_loop_no_owners.
  split; [done|]. unfold check_files, bind. rewrite Hcollect.
  unfold reconcile. simpl. rewrite update_file_run. simpl.
  destruct (dict_eqb _ _); split; try done; by eexists _, _.
Qed.




(** ** The further properties at sample inputs *)

Ltac sample_plain_manifest :=
  split; [by_compute|];
  let key := fresh "key" in
  let value := fresh "value" in
  let Hin := fresh "Hin" in
  intros key value Hin;
  repeat (apply elem_of_cons in Hin as [[= -> ->]|Hin];
          [split_and!; [done | done | repeat constructor]|]);
  by apply elem_of_nil in Hin.

Lemma committers_distinct_witness :
  blame_text sample_world "foo.py" = Some sample_blame
  ∧ ∃ result w',
      get_committers_for_file (sample_updater 10) "foo.py" sample_world
      = (Ok result, w')
      ∧ NoDup result
      ∧ result ⊆ sample_owners.*2.
Proof.
  split; [reflexivity|].
  apply (committers_distinct (sample_updater 10) "foo.py" sample_world
           sample_blame).
  reflexivity.
Defined.

Lemma raising_threshold_drops_owners_witness :
  blame_text sample_world "foo.py" = Some sample_blame
  ∧ owners (sample_updater 25) = owners (sample_updater 10)
  ∧ PrimFloat.is_nan (float_of_Z 10) = false
  ∧ PrimFloat.ltb (float_of_Z 25) (float_of_Z 10) = false
  ∧ ∃ result1 result2 w1 w2,
      get_committers_for_file (sample_updater 10) "foo.py" sample_world
      = (Ok result1, w1)
      ∧ get_committers_for_file (sample_updater 25) "foo.py" sample_world
        = (Ok result2, w2)
      ∧ sublist result2 result1.
Proof.
  split_and!; [reflexivity..|].
  apply (raising_threshold_drops_owners (sample_updater 10) (sample_updater 25)
           "foo.py" sample_world sample_blame); reflexivity.
Defined.

Lemma original_entry_overridden_witness :
  NoDup (dict_keys sample_manifest)
  ∧ NoDup (dict_keys sample_fresh)
  ∧ dict_get sample_manifest "foo.py" = Some ["@root"]
  ∧ dict_get (fst (reconcile sample_fresh sample_manifest [])) "foo.py"
    = Some (default ["@root"] (dict_get sample_fresh "foo.py")).
Proof.
  assert (H1 : NoDup (dict_keys sample_manifest)) by by_compute.
  assert (H2 : NoDup (dict_keys sample_fresh)) by by_compute.
  split_and!; [done | done | reflexivity |].
  by apply (original_entry_overridden sample_fresh sample_manifest "foo.py"
              ["@root"]).
Defined.

Lemma new_entry_suppressed_by_splat_witness :
  NoDup (dict_keys sample_manifest)
  ∧ NoDup (dict_keys sample_fresh)
  ∧ ("bar.py" ∉ dict_keys sample_manifest)
  ∧ dict_get sample_fresh "bar.py" = Some ["@bob"; "@root"]
  ∧ dict_get (fst (reconcile sample_fresh sample_manifest [])) "bar.py"
    = if intersects ["@bob"; "@root"] (splat_of sample_fresh sample_manifest)
      then None else Some ["@bob"; "@root"].
Proof.
  assert (H1 : NoDup (dict_keys sample_manifest)) by by_compute.
  assert (H2 : NoDup (dict_keys sample_fresh)) by by_compute.
  assert (H3 : "bar.py" ∉ dict_keys sample_manifest) by by_compute.
  split_and!; [done | done | done | reflexivity |].
  by apply (new_entry_suppressed_by_splat sample_fresh sample_manifest "bar.py"
              ["@bob"; "@root"]).
Defined.

Lemma updated_keys_order_witness :
  NoDup (dict_keys sample_manifest)
  ∧ NoDup (dict_keys sample_fresh)
  ∧ dict_keys (fst (reconcile sample_fresh sample_manifest []))
    = (dict_keys sample_manifest
       ++ (filter (λ item, (item.1 ∉ dict_keys sample_manifest)
                           ∧ intersects item.2 (splat_of sample_fresh sample_manifest) = false)
                  sample_fresh).*1)%list.
Proof.
  assert (H1 : NoDup (dict_keys sample_manifest)) by by_compute.
  assert (H2 : NoDup (dict_keys sample_fresh)) by by_compute.
  split_and!; [done | done |].
  by apply (updated_keys_order sample_fresh sample_manifest).
Defined.

Lemma optimized_no_redundant_entry_witness :
  NoDup (dict_keys sample_manifest)
  ∧ NoDup (dict_keys sample_fresh)
  ∧ ("*" ∈ dict_keys sample_manifest ∨ "*" ∉ dict_keys sample_fresh)
  ∧ no_redundant_entry (snd (reconcile sample_fresh sample_manifest [])).
Proof.
  assert (H1 : NoDup (dict_keys sample_manifest)) by by_compute.
  assert (H2 : NoDup (dict_keys sample_fresh)) by by_compute.
  assert (H3 : "*" ∈ dict_keys sample_manifest ∨ "*" ∉ dict_keys sample_fresh)
    by by_compute.
  split_and!; [done | done | done |].
  by apply (optimized_no_redundant_entry sample_fresh sample_manifest).
Defined.

Lemma reconcile_fixpoint_witness :
  NoDup (dict_keys sample_manifest)
  ∧ NoDup (dict_keys sample_fresh)
  ∧ ("*" ∈ dict_keys sample_manifest ∨ "*" ∉ dict_keys sample_fresh)
  ∧ reconcile sample_fresh (snd (reconcile sample_fresh sample_manifest [])) []
    = (snd (reconcile sample_fresh sample_manifest []),
       snd (reconcile sample_fresh sample_manifest [])).
Proof.
  assert (H1 : NoDup (dict_keys sample_manifest)) by by_compute.
  assert (H2 : NoDup (dict_keys sample_fresh)) by by_compute.
  assert (H3 : "*" ∈ dict_keys sample_manifest ∨ "*" ∉ dict_keys sample_fresh)
    by by_compute.
  split_and!; [done | done | done |].
  by apply (reconcile_fixpoint sample_fresh sample_manifest).
Defined.

Lemma written_manifest_read_back_witness :
  plain_manifest [("*", ["@root"]); ("foo.py", ["@ann"; "@bob"])]
  ∧ load_rows (csv_reader (rendered [("*", ["@root"]); ("foo.py", ["@ann"; "@bob"])]))
    = [("*", ["@root"]); ("foo.py", ["@ann"; "@bob"])]
  ∧ (dict_eqb [("*", ["@root"]); ("foo.py", ["@ann"; "@bob"])]
       (original_codeowner_data (sample_updater 25)) = false →
     ∃ self' w' self2,
       update_file (sample_updater 25)
         [("*", ["@root"]); ("foo.py", ["@ann"; "@bob"])] sample_world
       = (Ok self', w')
       ∧ init ["foo.py"] sample_owners (float_of_Z 25)
           (codeowners_file (sample_updater 25)) 0 w'
         = (Ok self2, w')
       ∧ original_codeowner_data self2
         = [("*", ["@root"]); ("foo.py", ["@ann"; "@bob"])]).
Proof.
  assert (H1 : plain_manifest [("*", ["@root"]); ("foo.py", ["@ann"; "@bob"])])
    by sample_plain_manifest.
  split; [done|].
  by apply (written_manifest_read_back (sample_updater 25)
              [("*", ["@root"]); ("foo.py", ["@ann"; "@bob"])] sample_world
              ["foo.py"] sample_owners (float_of_Z 25) 0).
Defined.

Lemma missing_gitownrc_is_fatal_witness :
  threshold_of threshold_args = Ok 30%Z
  ∧ filenames threshold_args ≠ []
  ∧ fs (bare_world None) !! ".gitownrc" = None
  ∧ main threshold_args (bare_world None)
    = (Raise (Exception
         "A .gitownrc file is required. Please see the github repo for details"),
       bare_world None)
  ∧ exit_status threshold_args (bare_world None) = 1%Z.
Proof.
  assert (H1 : filenames threshold_args ≠ []) by done.
  split_and!; [reflexivity | done | reflexivity |..];
    by apply (missing_gitownrc_is_fatal threshold_args (bare_world None) 30%Z).
Defined.

Lemma missing_manifest_is_fatal_witness :
  threshold_of threshold_args = Ok 30%Z
  ∧ filenames threshold_args ≠ []
  ∧ fs (bare_world (Some sample_gitownrc)) !! ".gitownrc" = Some sample_gitownrc
  ∧ json_loads (bare_world (Some sample_gitownrc)) sample_gitownrc
    = Some sample_owners
  ∧ fs (bare_world (Some sample_gitownrc)) !! manifest_name threshold_args = None
  ∧ main threshold_args (bare_world (Some sample_gitownrc))
    = (Raise FileNotFoundError, bare_world (Some sample_gitownrc)).
Proof.
  assert (H1 : filenames threshold_args ≠ []) by done.
  split_and!; [reflexivity | done | reflexivity | reflexivity | reflexivity |].
  by apply (missing_manifest_is_fatal threshold_args
              (bare_world (Some sample_gitownrc)) 30%Z sample_gitownrc
              sample_owners).
Defined.

Lemma malformed_threshold_is_fatal_witness :
  is_ascii (default "" (arg_ownership_threshold malformed_args)) = true
  ∧ threshold_of malformed_args = Raise ValueError
  ∧ main malformed_args (bare_world None) = (Raise ValueError, bare_world None)
  ∧ exit_status malformed_args (bare_world None) = 1%Z.
Proof.
  split_and!; [reflexivity | reflexivity |..];
    by apply (malformed_threshold_is_fatal malformed_args (bare_world None)
                ValueError).
Defined.

Lemma unparsable_gitownrc_is_fatal_witness :
  threshold_of threshold_args = Ok 30%Z
  ∧ filenames threshold_args ≠ []
  ∧ fs (bare_world (Some ["{"])) !! ".gitownrc" = Some ["{"]
  ∧ json_loads (bare_world (Some ["{"])) ["{"] = None
  ∧ main threshold_args (bare_world (Some ["{"]))
    = (Raise JSONDecodeError, bare_world (Some ["{"])).
Proof.
  assert (H1 : filenames threshold_args ≠ []) by done.
  split_and!; [reflexivity | done | reflexivity | reflexivity |].
  by apply (unparsable_gitownrc_is_fatal threshold_args (bare_world (Some ["{"]))
              30%Z ["{"]).
Defined.

Lemma empty_alias_table_looks_nothing_up_witness :
  owners no_alias_updater = []
  ∧ collect no_alias_updater ["foo.py"; "missing.py"] sample_world
    = (Ok [], sample_world)
  ∧ blame_calls (snd (check_files no_alias_updater ["foo.py"; "missing.py"] sample_world))
    = blame_calls sample_world
  ∧ ∃ self' w',
      check_files no_alias_updater ["foo.py"; "missing.py"] sample_world
      = (Ok self', w')
      ∧ updated_codeowner_data self'
        = carry_forward [] (original_codeowner_data no_alias_updater)
            (updated_codeowner_data no_alias_updater).
Proof.
  split; [reflexivity|].
  apply (empty_alias_table_looks_nothing_up no_alias_updater
           ["foo.py"; "missing.py"] sample_world).
  reflexivity.
Defined.

